(** * Snake game engine: a shallow embedding of [snake_game.py]

    The engine of the game (the classes [Point], [Snake], [Food] and the
    state-changing methods of [SnakeGame]) is embedded as Rocq functions.
    Python objects are mutated in place and a call may raise; a method is
    therefore a function from the object's state to an outcome (a returned
    value or a raised exception) together with the state the object is left
    in.  Drawing, the clock and the window are not modelled: they read the
    state and never write it. *)

From Stdlib Require Import ZArith List Bool Lia Permutation.
Import ListNotations.
Open Scope Z_scope.

(** ** Methods that mutate and may raise *)

Module Py.

(** The exceptions the engine can raise: [IndexError] (indexing or popping
    an empty list, [random.choice] on an empty sequence) and [SystemExit]
    ([sys.exit()]). *)
Inductive exn : Set := IndexError | SystemExit.

Inductive outcome (A : Type) : Type :=
| Return (a : A)
| Raise (e : exn).
Arguments Return {A} a.
Arguments Raise {A} e.

(** A method on an object whose state has type [St]. *)
Definition M (St A : Type) : Type := St -> outcome A * St.

Definition ret {St A} (a : A) : M St A := fun s => (Return a, s).

Definition raise {St A} (e : exn) : M St A := fun s => (Raise e, s).

Definition bind {St A B} (m : M St A) (k : A -> M St B) : M St B :=
  fun s =>
    match m s with
    | (Return a, s') => k a s'
    | (Raise e, s') => (Raise e, s')
    end.

Definition gets {St A} (f : St -> A) : M St A := fun s => (Return (f s), s).

Definition modify {St} (f : St -> St) : M St unit := fun s => (Return tt, f s).

(** Running a method of an attribute: [sel] reads the attribute and [upd]
    stores the state the method left it in. *)
Definition on {St Sub A} (sel : St -> Sub) (upd : Sub -> St -> St)
           (m : M Sub A) : M St A :=
  fun s => let (o, sub) := m (sel s) in (o, upd sub s).

(** [range(n)] *)
Definition range (n : Z) : list Z := map Z.of_nat (seq 0 (Z.to_nat n)).

(** [random.choice(l)]: raises [IndexError] on an empty sequence, otherwise
    returns [l[i]] for an index [i] below [len(l)] drawn by the generator.
    The generator's draw is the argument [rnd]; every index below [len(l)]
    is the outcome of some draw. *)
Definition random_choice {St A} (rnd : nat) (l : list A) : M St A :=
  match l with
  | [] => raise IndexError
  | a :: _ => ret (nth (rnd mod length l)%nat l a)
  end.

End Py.
Import Py.

Declare Scope py_scope.
Delimit Scope py_scope with py.
Notation "a <- m ;; k" := (bind m (fun a => k))
  (at level 61, m at next level, right associativity) : py_scope.
Notation "m ;; k" := (bind m (fun _ => k))
  (at level 61, right associativity) : py_scope.
Open Scope py_scope.

(** ** Constants *)

Definition GRID_WIDTH : Z := 30.
Definition GRID_HEIGHT : Z := 22.

(** ** Point *)

Record Point : Set := mkPoint { x : Z; y : Z }.

(** [__eq__] of the frozen dataclass: equality of the coordinate pairs. *)
Definition point_eqb (p q : Point) : bool := (x p =? x q) && (y p =? y q).

(** [p in l] on a list of points. *)
Definition point_in (p : Point) (l : list Point) : bool := existsb (point_eqb p) l.

(** ** Keys and direction vectors *)

Inductive Key : Set :=
| K_UP | K_w | K_DOWN | K_s | K_LEFT | K_a | K_RIGHT | K_d
| K_SPACE | K_r | K_ESCAPE | K_other.

(** The dict [DIRECTION_VECTORS]; [None] for a key that is not in it. *)
Definition DIRECTION_VECTORS (k : Key) : option Point :=
  match k with
  | K_UP | K_w => Some (mkPoint 0 (-1))
  | K_DOWN | K_s => Some (mkPoint 0 1)
  | K_LEFT | K_a => Some (mkPoint (-1) 0)
  | K_RIGHT | K_d => Some (mkPoint 1 0)
  | _ => None
  end.

(** A direction is a value of [DIRECTION_VECTORS]. *)
Definition is_direction (d : Point) : Prop := exists k, DIRECTION_VECTORS k = Some d.

(** ** Snake *)

Record Snake : Set := mkSnake {
  body : list Point;
  direction : Point;
  pending_direction : Point;
  grow_pending : Z
}.

Definition set_body (b : list Point) (s : Snake) : Snake :=
  mkSnake b (direction s) (pending_direction s) (grow_pending s).
Definition set_committed (d : Point) (s : Snake) : Snake :=
  mkSnake (body s) d (pending_direction s) (grow_pending s).
Definition set_pending (d : Point) (s : Snake) : Snake :=
  mkSnake (body s) (direction s) d (grow_pending s).
Definition set_grow_pending (n : Z) (s : Snake) : Snake :=
  mkSnake (body s) (direction s) (pending_direction s) n.

(** [Snake.__init__] *)
Definition Snake_init : Snake :=
  let d := mkPoint (-1) 0 in
  {| body := map (fun i => mkPoint (GRID_WIDTH / 2 + i) (GRID_HEIGHT / 2)) (range 3);
     direction := d;
     pending_direction := d;
     grow_pending := 0 |}.

(** The property [head]: [self.body[0]]. *)
Definition head : M Snake Point :=
  b <- gets body ;;
  match b with
  | [] => raise IndexError
  | p :: _ => ret p
  end.

(** The test of [set_direction]: [d] is the exact opposite of [cur]. *)
Definition is_opposite (d cur : Point) : bool :=
  (x d =? - x cur) && (y d =? - y cur).

Definition set_direction (d : Point) : M Snake unit :=
  cur <- gets direction ;;
  if is_opposite d cur then ret tt
  else modify (set_pending d).

(** [self.body.pop()] *)
Definition body_pop : M Snake Point :=
  b <- gets body ;;
  match b with
  | [] => raise IndexError
  | p :: _ => modify (set_body (removelast b)) ;; ret (last b p)
  end.

Definition move : M Snake unit :=
  pd <- gets pending_direction ;;
  modify (set_committed pd) ;;
  h <- head ;;
  d <- gets direction ;;
  let new_head := mkPoint (x h + x d) (y h + y d) in
  modify (fun s => set_body (new_head :: body s) s) ;;
  gp <- gets grow_pending ;;
  if gp >? 0 then modify (set_grow_pending (gp - 1))
  else body_pop ;; ret tt.

Definition grow (amount : Z) : M Snake unit :=
  gp <- gets grow_pending ;;
  modify (set_grow_pending (gp + amount)).

(** [self.head in self.body[1:]] *)
Definition hits_self : M Snake bool :=
  h <- head ;;
  b <- gets body ;;
  ret (point_in h (tl b)).

(** ** Food *)

Record Food : Set := mkFood { position : Point }.

(** Every cell of the grid, in the order of the two [for] clauses of
    [_random_position]: [x] outermost, [y] innermost. *)
Definition grid_cells : list Point :=
  flat_map (fun cx => map (fun cy => mkPoint cx cy) (range GRID_HEIGHT))
           (range GRID_WIDTH).

(** The list [available] of [_random_position]: the comprehension keeps, in
    that order, the cells that are [not in occupied]. *)
Definition available (occupied : list Point) : list Point :=
  filter (fun p => negb (point_in p occupied)) grid_cells.

(** The static method [Food._random_position]. *)
Definition _random_position {St} (rnd : nat) (occupied : list Point) : M St Point :=
  random_choice rnd (available occupied).

(** [Food.__init__]: the constructor returns the new object, or raises. *)
Definition Food_init {St} (rnd : nat) (occupied : list Point) : M St Food :=
  p <- _random_position rnd occupied ;;
  ret (mkFood p).

Definition relocate (rnd : nat) (occupied : list Point) : M Food unit :=
  p <- _random_position rnd occupied ;;
  modify (fun _ => mkFood p).

(** ** SnakeGame *)

Record SnakeGame : Set := mkGame {
  snake : Snake;
  food : Food;
  score : Z;
  game_over : bool;
  paused : bool
}.

Definition set_snake (s : Snake) (g : SnakeGame) : SnakeGame :=
  mkGame s (food g) (score g) (game_over g) (paused g).
Definition set_food (f : Food) (g : SnakeGame) : SnakeGame :=
  mkGame (snake g) f (score g) (game_over g) (paused g).
Definition set_score (n : Z) (g : SnakeGame) : SnakeGame :=
  mkGame (snake g) (food g) n (game_over g) (paused g).
Definition set_game_over (b : bool) (g : SnakeGame) : SnakeGame :=
  mkGame (snake g) (food g) (score g) b (paused g).
Definition set_paused (b : bool) (g : SnakeGame) : SnakeGame :=
  mkGame (snake g) (food g) (score g) (game_over g) b.

(** A method call on [self.snake], on [self.food]. *)
Definition on_snake {A} (m : M Snake A) : M SnakeGame A := on snake set_snake m.
Definition on_food {A} (m : M Food A) : M SnakeGame A := on food set_food m.

(** [SnakeGame.reset]; [rnd] is the draw of the one [random.choice]. *)
Definition reset (rnd : nat) : M SnakeGame unit :=
  modify (set_snake Snake_init) ;;
  b <- gets (fun g => body (snake g)) ;;
  f <- Food_init rnd b ;;
  modify (set_food f) ;;
  modify (set_score 0) ;;
  modify (set_game_over false) ;;
  modify (set_paused false).

(** The bounds test of [update]:
    [0 <= head.x < GRID_WIDTH and 0 <= head.y < GRID_HEIGHT]. *)
Definition in_grid (p : Point) : bool :=
  (0 <=? x p) && (x p <? GRID_WIDTH) && ((0 <=? y p) && (y p <? GRID_HEIGHT)).

(** [SnakeGame.update]; [rnd] is the draw of the [random.choice] of
    [relocate], should the snake eat. *)
Definition update (rnd : nat) : M SnakeGame unit :=
  on_snake move ;;
  h <- on_snake head ;;
  if negb (in_grid h) then modify (set_game_over true)
  else
    hit <- on_snake hits_self ;;
    if hit then modify (set_game_over true)
    else
      h <- on_snake head ;;
      f <- gets (fun g => position (food g)) ;;
      if point_eqb h f then
        on_snake (grow 2) ;;
        sc <- gets score ;;
        modify (set_score (sc + 10)) ;;
        b <- gets (fun g => body (snake g)) ;;
        on_food (relocate rnd b)
      else ret tt.

(** The tick of the loop of [run]:
    [if not self.game_over and not self.paused: self.update()]. *)
Definition advance_tick (rnd : nat) : M SnakeGame unit :=
  over <- gets game_over ;;
  pau <- gets paused ;;
  if negb over && negb pau then update rnd
  else ret tt.

(** The [KEYDOWN] branch of [handle_events], for one key; [rnd] is the draw
    used if the key restarts the game. *)
Definition handle_keydown (rnd : nat) (k : Key) : M SnakeGame unit :=
  match DIRECTION_VECTORS k with
  | Some d => on_snake (set_direction d)
  | None =>
      match k with
      | K_SPACE =>
          over <- gets game_over ;;
          if negb over then
            pau <- gets paused ;; modify (set_paused (negb pau))
          else ret tt
      | K_r => reset rnd
      | K_ESCAPE => raise SystemExit
      | _ => ret tt
      end
  end.

(** ** States used in the statements *)

(** A snake moving left with body [(14,11),(15,11),(16,11)] and food at
    [(13,11)]. *)
Definition eating_game : SnakeGame :=
  {| snake := {| body := [mkPoint 14 11; mkPoint 15 11; mkPoint 16 11];
                 direction := mkPoint (-1) 0;
                 pending_direction := mkPoint (-1) 0;
                 grow_pending := 0 |};
     food := mkFood (mkPoint 13 11);
     score := 0;
     game_over := false;
     paused := false |}.

(** A path through every cell of the grid, each cell next to the one before:
    down the even columns and up the odd ones, starting at [(0,0)]. *)
Definition serpentine : list Point :=
  flat_map (fun cx =>
              let col := map (fun cy => mkPoint cx cy) (range GRID_HEIGHT) in
              if Z.even cx then col else rev col)
           (range GRID_WIDTH).

(** The snake lies on all of that path but its first cell [(0,0)], where the
    food is; its head [(0,1)] moves up onto the food and one cell of growth
    is pending, so that after the move the snake fills the grid. *)
Definition full_game : SnakeGame :=
  {| snake := {| body := tl serpentine;
                 direction := mkPoint 0 (-1);
                 pending_direction := mkPoint 0 (-1);
                 grow_pending := 1 |};
     food := mkFood (mkPoint 0 0);
     score := 0;
     game_over := false;
     paused := false |}.

(** Consecutive cells differ by one step along one axis. *)
Fixpoint linked (l : list Point) : bool :=
  match l with
  | p :: (q :: _) as r =>
      (Z.abs (x p - x q) + Z.abs (y p - y q) =? 1) && linked r
  | _ => true
  end.

Fixpoint distinct (l : list Point) : bool :=
  match l with
  | [] => true
  | p :: r => negb (point_in p r) && distinct r
  end.

(** The data model's conditions on a game in play: a non-empty body of
    distinct, linked cells inside the grid, and the food on a cell of the
    grid outside the body. *)
Definition well_formed (g : SnakeGame) : bool :=
  let b := body (snake g) in
  negb (Nat.eqb (length b) 0) && distinct b && linked b && forallb in_grid b
  && in_grid (position (food g)) && negb (point_in (position (food g)) b)
  && (0 <=? grow_pending (snake g)).

(** ** Notions used in the statements *)

(** The occupied cells leave no cell of the grid free. *)
Definition covers_grid (occupied : list Point) : Prop :=
  forall p, in_grid p = true -> point_in p occupied = true.

(** The cell in front of [h] in direction [d]. *)
Definition ahead (h d : Point) : Point := mkPoint (x h + x d) (y h + y d).

(** The state [move] leaves the snake in. *)
Definition after_move (s : Snake) : Snake := snd (move s).

(** A call of one of the snake's state-changing methods. *)
Inductive SnakeCall : Set :=
| CallSetDirection (d : Point)
| CallMove
| CallGrow (amount : Z).

Definition call (c : SnakeCall) : M Snake unit :=
  match c with
  | CallSetDirection d => set_direction d
  | CallMove => move
  | CallGrow amount => grow amount
  end.

(** A sequence of calls, in order; a raised exception ends it. *)
Fixpoint calls (l : list SnakeCall) : M Snake unit :=
  match l with
  | [] => ret tt
  | c :: r => call c ;; calls r
  end.

(** The calls the game makes: [set_direction] only receives values of
    [DIRECTION_VECTORS]. *)
Definition direction_call (c : SnakeCall) : Prop :=
  match c with
  | CallSetDirection d => is_direction d
  | _ => True
  end.

(** Both directions are direction vectors and the pending one is not the
    opposite of the committed one. *)
Definition steady (s : Snake) : Prop :=
  is_direction (direction s) /\ is_direction (pending_direction s)
  /\ is_opposite (pending_direction s) (direction s) = false.

(** The game at the call of [relocate], when the snake eats: the snake has
    moved, two cells of growth and ten points have been added. *)
Definition fed (g : SnakeGame) : SnakeGame :=
  let s' := after_move (snake g) in
  set_score (score g + 10)
            (set_snake (set_grow_pending (grow_pending s' + 2) s') g).

(** ** Pixels *)

Definition CELL_SIZE : Z := 20.
Definition WINDOW_WIDTH : Z := GRID_WIDTH * CELL_SIZE.
Definition WINDOW_HEIGHT : Z := GRID_HEIGHT * CELL_SIZE.

(** [Point.to_pixels]: the top-left corner of the cell's square. *)
Definition to_pixels (p : Point) : Z * Z := (x p * CELL_SIZE, y p * CELL_SIZE).

(** ** Events and the loop of [run] *)

(** What [handle_events] tells apart in an event: its type, and the key of
    a [KEYDOWN]. *)
Inductive Event : Set :=
| QUIT
| KEYDOWN (key : Key)
| OtherEvent.

(** The body of the [for] loop of [handle_events]; [pygame.quit()] followed
    by [sys.exit()] raises [SystemExit]. *)
Definition handle_event (rnd : nat) (e : Event) : M SnakeGame unit :=
  match e with
  | QUIT => raise SystemExit
  | KEYDOWN k => handle_keydown rnd k
  | OtherEvent => ret tt
  end.

(** [handle_events] on the events [pygame.event.get()] returned, in order.
    Each event comes with the draw the generator would give at that point,
    which is used if the event restarts the game. *)
Fixpoint handle_events (evs : list (nat * Event)) : M SnakeGame unit :=
  match evs with
  | [] => ret tt
  | (rnd, e) :: r => handle_event rnd e ;; handle_events r
  end.

(** What one iteration of the loop of [run] receives: the pending events and
    the draw for the tick. *)
Record Frame : Set := mkFrame {
  events : list (nat * Event);
  tick_draw : nat
}.

(** One iteration of [while True] in [run], less the clock and the drawing. *)
Definition run_iteration (f : Frame) : M SnakeGame unit :=
  handle_events (events f) ;;
  advance_tick (tick_draw f).

(** The first iterations of [run], one per frame; an exception ends the
    loop. *)
Fixpoint run_for (fs : list Frame) : M SnakeGame unit :=
  match fs with
  | [] => ret tt
  | f :: r => run_iteration f ;; run_for r
  end.

(** [SnakeGame().run()]: [__init__] calls [reset] and the loop starts. *)
Definition main (rnd : nat) (fs : list Frame) : M SnakeGame unit :=
  reset rnd ;; run_for fs.

(** ** Further notions used in the statements *)

(** [k] calls of [move] in a row. *)
Fixpoint moves (k : nat) : M Snake unit :=
  match k with
  | O => ret tt
  | S k' => move ;; moves k'
  end.

(** [k] ticks in a row, with the draws [rnds]. *)
Fixpoint ticks (rnds : list nat) : M SnakeGame unit :=
  match rnds with
  | [] => ret tt
  | rnd :: r => advance_tick rnd ;; ticks r
  end.

(** The pending direction after requests [ds] against the committed
    direction [cur]: the last request that is not the opposite of [cur], or
    [pd] when there is none. *)
Definition last_accepted (cur pd : Point) (ds : list Point) : Point :=
  fold_left (fun acc d => if is_opposite d cur then acc else d) ds pd.

(** The cells of the body account for the score: three cells at the start
    and two for every ten points, those still pending included. *)
Definition score_law (g : SnakeGame) : Prop :=
  body (snake g) <> []
  /\ 0 <= grow_pending (snake g)
  /\ 0 <= score g
  /\ 5 * (Z.of_nat (length (body (snake g))) + grow_pending (snake g))
     = score g + 15.

(** The state of a game the loop goes on with: direction vectors that are
    not opposite, and, unless the game is over, a well-formed game. *)
Definition sound (g : SnakeGame) : Prop :=
  steady (snake g) /\ (game_over g = false -> well_formed g = true).

(** [g'] is [g] but for the pending direction of the snake. *)
Definition same_but_pending (g g' : SnakeGame) : Prop :=
  body (snake g') = body (snake g)
  /\ direction (snake g') = direction (snake g)
  /\ grow_pending (snake g') = grow_pending (snake g)
  /\ food g' = food g
  /\ score g' = score g
  /\ game_over g' = game_over g
  /\ paused g' = paused g.

(** No event of the frames is the key [K_r]. *)
Definition no_restart (fs : list Frame) : Prop :=
  Forall (fun f => Forall (fun ev => snd ev <> KEYDOWN K_r) (events f)) fs.

(** * Properties *)

(** ** Points and membership *)

Lemma point_eqb_eq (p q : Point) : point_eqb p q = true <-> p = q.
Proof.
  destruct p as [px py], q as [qx qy]; unfold point_eqb; cbn.
  rewrite andb_true_iff, !Z.eqb_eq.
  split; [intros [-> ->]; reflexivity | intros [= -> ->]; auto].
Qed.

Lemma point_eqb_refl (p : Point) : point_eqb p p = true.
Proof. apply point_eqb_eq; reflexivity. Qed.

Lemma point_in_In (p : Point) (l : list Point) : point_in p l = true <-> In p l.
Proof.
  unfold point_in; rewrite existsb_exists; split.
  - intros (q & Hq & Heq). apply point_eqb_eq in Heq; subst; assumption.
  - intros Hin; exists p; split; [assumption | apply point_eqb_refl].
Qed.

Lemma point_in_false (p : Point) (l : list Point) :
  point_in p l = false <-> ~ In p l.
Proof.
  rewrite <- point_in_In; destruct (point_in p l); split; intros; congruence.
Qed.

(** ** The grid and the choice of a free cell *)

Lemma In_range (n i : Z) : In i (range n) <-> 0 <= i < n.
Proof.
  unfold range; rewrite in_map_iff; split.
  - intros (k & <- & Hk). apply in_seq in Hk. lia.
  - intros Hi. exists (Z.to_nat i). split; [lia | apply in_seq; lia].
Qed.

Lemma In_grid_cells (p : Point) : In p grid_cells <-> in_grid p = true.
Proof.
  unfold grid_cells, in_grid. rewrite in_flat_map. split.
  - intros (cx & Hcx & Hp). apply in_map_iff in Hp as (cy & <- & Hcy).
    apply In_range in Hcx, Hcy; cbn. 
    rewrite !andb_true_iff, !Z.leb_le, !Z.ltb_lt. lia.
  - rewrite !andb_true_iff, !Z.leb_le, !Z.ltb_lt. intros Hb.
    exists (x p); split; [apply In_range; lia |].
    apply in_map_iff; exists (y p); split;
      [destruct p; reflexivity | apply In_range; lia].
Qed.

Lemma In_available (occupied : list Point) (p : Point) :
  In p (available occupied) <-> in_grid p = true /\ point_in p occupied = false.
Proof.
  unfold available. rewrite filter_In, In_grid_cells, negb_true_iff. tauto.
Qed.

Lemma available_nil (occupied : list Point) :
  covers_grid occupied -> available occupied = [].
Proof.
  intros Hcov. destruct (available occupied) as [|p l] eqn:E; [reflexivity |].
  assert (Hp : In p (available occupied)) by (rewrite E; left; reflexivity).
  apply In_available in Hp as [Hg Hn]. rewrite (Hcov p Hg) in Hn. discriminate.
Qed.

Lemma random_choice_In {St A} (rnd : nat) (l : list A) (s : St) :
  l <> [] -> exists a, random_choice rnd l s = (Return a, s) /\ In a l.
Proof.
  destruct l as [|a l]; [congruence | intros _].
  exists (nth (rnd mod length (a :: l))%nat (a :: l) a); split; [reflexivity |].
  apply nth_In, Nat.mod_upper_bound. discriminate.
Qed.

(** No index is left out: the [i]-th element is the choice at draw [i]. *)
Lemma random_choice_nth {St A} (i : nat) (l : list A) (d : A) (s : St) :
  (i < length l)%nat -> random_choice i l s = (Return (nth i l d), s).
Proof.
  intros Hi. destruct l as [|a l]; [cbn in Hi; lia |].
  unfold random_choice, ret. rewrite Nat.mod_small by assumption.
  rewrite (nth_indep _ a d Hi). reflexivity.
Qed.

Lemma random_position_free {St} (rnd : nat) (occupied : list Point) (s : St) :
  (exists c, in_grid c = true /\ point_in c occupied = false) ->
  exists p, _random_position rnd occupied s = (Return p, s)
            /\ in_grid p = true /\ point_in p occupied = false.
Proof.
  intros (c & Hc). apply In_available in Hc.
  destruct (random_choice_In (St := St) rnd (available occupied) s) as (p & Hp & Hin).
  - intros E; rewrite E in Hc; exact Hc.
  - exists p; split; [exact Hp | apply In_available; exact Hin].
Qed.

Lemma random_position_full {St} (rnd : nat) (occupied : list Point) (s : St) :
  covers_grid occupied -> _random_position rnd occupied s = (Raise IndexError, s).
Proof.
  intros Hcov. unfold _random_position. rewrite (available_nil _ Hcov). reflexivity.
Qed.

(** ** One move of the snake *)

Lemma move_cons (s : Snake) (h : Point) (t : list Point) :
  body s = h :: t ->
  move s =
    (Return tt,
     {| body := ahead h (pending_direction s) ::
                (if grow_pending s >? 0 then h :: t else removelast (h :: t));
        direction := pending_direction s;
        pending_direction := pending_direction s;
        grow_pending := if grow_pending s >? 0 then grow_pending s - 1
                        else grow_pending s |}).
Proof.
  intros Hb. unfold move, bind, gets, modify, head, body_pop, ret, raise, bind, gets.
  cbn. rewrite Hb. cbn. destruct (grow_pending s >? 0) eqn:Hg; cbn.
  - unfold set_grow_pending, ahead; cbn. rewrite Hb. reflexivity.
  - rewrite Hb. unfold set_body, ahead; cbn. reflexivity.
Qed.

Lemma move_nil (s : Snake) :
  body s = [] -> move s = (Raise IndexError, set_committed (pending_direction s) s).
Proof.
  intros Hb. unfold move, bind, gets, modify, head, raise, bind, gets.
  cbn. rewrite Hb. reflexivity.
Qed.

Lemma removelast_length {A} (l : list A) :
  length (removelast l) = pred (length l).
Proof.
  induction l as [|a [|b l] IH]; [reflexivity .. |].
  change (removelast (a :: b :: l)) with (a :: removelast (b :: l)).
  cbn [length] in *. rewrite IH. reflexivity.
Qed.

(** ** The snake *)

(** C9, the part that holds.  A new snake has the three cells
    [(cx,cy), (cx+1,cy), (cx+2,cy)], head first, where [cx = GRID_WIDTH // 2]
    and [cy = GRID_HEIGHT // 2]: the head is at the horizontal centre itself
    (offset 0) and it is the last cell that lies at the centre plus the body
    length minus 1.  Both directions are [(-1,0)] and no growth is pending. *)
Theorem snake_init_spec :
  let cx := GRID_WIDTH / 2 in
  let cy := GRID_HEIGHT / 2 in
  body Snake_init = [mkPoint cx cy; mkPoint (cx + 1) cy; mkPoint (cx + 2) cy]
  /\ head Snake_init = (Return (mkPoint cx cy), Snake_init)
  /\ last (body Snake_init) (mkPoint 0 0)
     = mkPoint (cx + (Z.of_nat (length (body Snake_init)) - 1)) cy
  /\ direction Snake_init = mkPoint (-1) 0
  /\ pending_direction Snake_init = mkPoint (-1) 0
  /\ grow_pending Snake_init = 0.
Proof. cbv zeta. repeat split; reflexivity. Qed.

(** C9 as stated fails: the head of a new snake is not at the horizontal
    centre plus the body length minus 1 (that is column 17); it is at
    column 15. *)
Lemma snake_init_head_not_offset :
  head Snake_init = (Return (mkPoint 15 11), Snake_init)
  /\ ~ (exists h, head Snake_init = (Return h, Snake_init)
                  /\ x h = GRID_WIDTH / 2 + (Z.of_nat (length (body Snake_init)) - 1)).
Proof.
  split; [reflexivity |].
  intros (h & Hh & Hx). cbv in Hh. injection Hh as <-. cbv in Hx. discriminate.
Qed.

(** C5.  For a direction vector [d]: when [d] is the exact opposite of the
    committed direction, [set_direction d] returns without changing the
    snake; otherwise it returns with [pending_direction] set to [d] and the
    rest of the snake unchanged.  It never raises. *)
Theorem set_direction_spec (s : Snake) (d : Point) :
  is_direction d ->
  (x d = - x (direction s) /\ y d = - y (direction s) ->
   set_direction d s = (Return tt, s))
  /\ (~ (x d = - x (direction s) /\ y d = - y (direction s)) ->
      set_direction d s
      = (Return tt, {| body := body s;
                       direction := direction s;
                       pending_direction := d;
                       grow_pending := grow_pending s |})).
Proof.
  intros _. unfold set_direction, bind, gets, modify, ret, is_opposite.
  split; intros H.
  - destruct H as [-> ->]. rewrite !Z.eqb_refl. reflexivity.
  - destruct (x d =? - x (direction s)) eqn:Ex, (y d =? - y (direction s)) eqn:Ey;
      try reflexivity.
    apply Z.eqb_eq in Ex, Ey. tauto.
Qed.

Lemma set_direction_spec_witness :
  set_direction (mkPoint 1 0) Snake_init = (Return tt, Snake_init)
  /\ pending_direction (snd (set_direction (mkPoint 0 1) Snake_init)) = mkPoint 0 1.
Proof.
  assert (Hr : is_direction (mkPoint 1 0)) by (exists K_RIGHT; reflexivity).
  assert (Hd : is_direction (mkPoint 0 1)) by (exists K_DOWN; reflexivity).
  split.
  - apply (proj1 (set_direction_spec Snake_init (mkPoint 1 0) Hr)).
    split; reflexivity.
  - rewrite (proj2 (set_direction_spec Snake_init (mkPoint 0 1) Hd)).
    + reflexivity.
    + intros [Hx _]; discriminate Hx.
Defined.

(** C3.  On a snake with a non-empty body, [move] returns normally, whatever
    cell the new head falls on (no bounds test, no test against the body).
    The committed direction becomes the pending one, the new head
    [head + direction] is put in front of the body, and then: with
    [grow_pending > 0] the counter goes down by one and the whole old body
    follows the new head (one cell longer); otherwise the old body less its
    last cell follows it (same length). *)
Theorem move_spec (s : Snake) (h : Point) (t : list Point) :
  body s = h :: t ->
  let s' := after_move s in
  let new_head := mkPoint (x h + x (direction s')) (y h + y (direction s')) in
  move s = (Return tt, s')
  /\ direction s' = pending_direction s
  /\ pending_direction s' = pending_direction s
  /\ (0 < grow_pending s ->
      grow_pending s' = grow_pending s - 1
      /\ body s' = new_head :: body s
      /\ length (body s') = S (length (body s)))
  /\ (grow_pending s <= 0 ->
      grow_pending s' = grow_pending s
      /\ body s' = new_head :: removelast (body s)
      /\ length (body s') = length (body s)).
Proof.
  intros Hb. cbv zeta. unfold after_move. rewrite (move_cons s h t Hb).
  cbn [snd fst body direction pending_direction grow_pending].
  rewrite Hb. unfold ahead.
  destruct (grow_pending s >? 0) eqn:Hg.
  - apply Z.gtb_lt in Hg. repeat split; try reflexivity; intros; lia.
  - assert (grow_pending s <= 0) by (rewrite Z.gtb_ltb in Hg; apply Z.ltb_ge in Hg; lia).
    repeat split; try reflexivity; try (intros; lia).
    cbn [length]. rewrite removelast_length. reflexivity.
Qed.

Lemma move_spec_witness :
  body (after_move Snake_init) = [mkPoint 14 11; mkPoint 15 11; mkPoint 16 11].
Proof.
  destruct (move_spec Snake_init (mkPoint 15 11) [mkPoint 16 11; mkPoint 17 11]
                      eq_refl) as (_ & _ & _ & _ & Hkeep).
  destruct (Hkeep ltac:(cbn; lia)) as (_ & Hbody & _).
  rewrite Hbody. reflexivity.
Defined.

(** ** No reversal *)

Lemma direction_not_self_opposite (d : Point) :
  is_direction d -> is_opposite d d = false.
Proof. intros [k Hk]. destruct k; inversion Hk; reflexivity. Qed.

Lemma steady_init : steady Snake_init.
Proof.
  repeat split; try (exists K_LEFT; reflexivity).
Qed.

Lemma steady_set_direction (d : Point) (s : Snake) :
  is_direction d -> steady s -> steady (snd (set_direction d s)).
Proof.
  intros Hd (Hc & Hp & Hno).
  unfold set_direction, bind, gets, modify, ret.
  destruct (is_opposite d (direction s)) eqn:Ho; cbn; repeat split; assumption.
Qed.

Lemma steady_move (s : Snake) : steady s -> steady (snd (move s)).
Proof.
  intros (Hc & Hp & Hno).
  destruct (body s) as [|h t] eqn:Hb.
  - rewrite (move_nil s Hb); cbn.
    repeat split; cbn; auto using direction_not_self_opposite.
  - rewrite (move_cons s h t Hb); cbn.
    repeat split; cbn; auto using direction_not_self_opposite.
Qed.

Lemma steady_grow (n : Z) (s : Snake) : steady s -> steady (snd (grow n s)).
Proof. intros H; exact H. Qed.

Lemma steady_call (c : SnakeCall) (s : Snake) :
  direction_call c -> steady s -> steady (snd (call c s)).
Proof.
  destruct c; cbn [call direction_call]; intros Hc Hs;
    auto using steady_set_direction, steady_move, steady_grow.
Qed.

Lemma steady_calls (l : list SnakeCall) :
  Forall direction_call l -> forall s, steady s -> steady (snd (calls l s)).
Proof.
  induction 1 as [|c r Hc _ IH]; intros s Hs; [exact Hs |].
  cbn [calls]. unfold bind.
  pose proof (steady_call c s Hc Hs) as Hs'.
  destruct (call c s) as [[[]|e] s']; cbn [snd] in *; auto.
Qed.

Lemma move_direction (s : Snake) : direction (after_move s) = pending_direction s.
Proof.
  unfold after_move. destruct (body s) as [|h t] eqn:Hb.
  - rewrite (move_nil s Hb); reflexivity.
  - rewrite (move_cons s h t Hb); reflexivity.
Qed.

(** C10.  After construction and any sequence of calls of [set_direction]
    (with direction vectors), [move] and [grow], the pending direction is not
    the exact opposite of the committed one; hence the direction the next
    [move] commits is not the opposite of the one committed before it. *)
Theorem pending_never_opposite (l : list SnakeCall) :
  Forall direction_call l ->
  let s := snd (calls l Snake_init) in
  is_opposite (pending_direction s) (direction s) = false
  /\ is_opposite (direction (after_move s)) (direction s) = false.
Proof.
  intros Hl s.
  destruct (steady_calls l Hl Snake_init steady_init) as (_ & _ & Hno).
  fold s in Hno. rewrite move_direction. split; exact Hno.
Qed.

Lemma pending_never_opposite_witness :
  let s := snd (calls [CallSetDirection (mkPoint 0 (-1)); CallMove;
                       CallSetDirection (mkPoint 0 1); CallGrow 2; CallMove]
                      Snake_init) in
  direction s = mkPoint 0 (-1)
  /\ is_opposite (pending_direction s) (direction s) = false.
Proof.
  split; [reflexivity |].
  refine (proj1 (pending_never_opposite _ _)).
  repeat constructor; cbn; [exists K_UP | exists K_DOWN]; reflexivity.
Defined.

(** ** One tick of the game *)

Lemma after_move_body (s : Snake) (h : Point) (t : list Point) :
  body s = h :: t ->
  body (after_move s)
  = ahead h (pending_direction s)
    :: (if grow_pending s >? 0 then h :: t else removelast (h :: t)).
Proof.
  intros Hb. unfold after_move. rewrite (move_cons s h t Hb). reflexivity.
Qed.

Lemma move_returns (s : Snake) :
  body s <> [] -> move s = (Return tt, after_move s).
Proof.
  destruct (body s) as [|h t] eqn:Hb; [congruence | intros _].
  unfold after_move. rewrite (move_cons s h t Hb). reflexivity.
Qed.

(** [update] by cases, for a snake with a body. *)
Lemma update_cons (rnd : nat) (g : SnakeGame) (h : Point) (t : list Point) :
  body (snake g) = h :: t ->
  let s' := after_move (snake g) in
  let new_head := ahead h (pending_direction (snake g)) in
  update rnd g =
    if negb (in_grid new_head) then (Return tt, set_game_over true (set_snake s' g))
    else if point_in new_head (tl (body s')) then
      (Return tt, set_game_over true (set_snake s' g))
    else if point_eqb new_head (position (food g)) then
      on_food (relocate rnd (body s')) (fed g)
    else (Return tt, set_snake s' g).
Proof.
  intros Hb s' new_head.
  assert (Hmove : move (snake g) = (Return tt, s'))
    by (apply move_returns; rewrite Hb; discriminate).
  assert (Hbody : exists r, body s' = new_head :: r)
    by (eexists; unfold s'; rewrite (after_move_body _ h t Hb); reflexivity).
  unfold update, bind, on_snake, on at 1. rewrite Hmove.
  unfold fed. fold s'. clearbody s' new_head. clear Hmove.
  destruct Hbody as [r Hr]. destruct s' as [b d pd gp]. cbn in Hr. subst b.
  unfold on, hits_self, head, grow, bind, gets, modify, ret. cbn.
  destruct (in_grid new_head); cbn; [| reflexivity].
  destruct (existsb (point_eqb new_head) r); cbn; [reflexivity |].
  destruct (point_eqb new_head (position (food g))); reflexivity.
Qed.

Lemma update_eat (rnd : nat) (g : SnakeGame) (h : Point) (t : list Point) :
  body (snake g) = h :: t ->
  let s' := after_move (snake g) in
  let new_head := ahead h (pending_direction (snake g)) in
  in_grid new_head = true ->
  point_in new_head (tl (body s')) = false ->
  position (food g) = new_head ->
  update rnd g = on_food (relocate rnd (body s')) (fed g).
Proof.
  intros Hb s' new_head Hin Hself Hfood.
  rewrite (update_cons rnd g h t Hb). fold s' new_head.
  rewrite Hin, Hself, Hfood, point_eqb_refl. reflexivity.
Qed.

Lemma advance_tick_active (rnd : nat) (g : SnakeGame) :
  game_over g = false -> paused g = false -> advance_tick rnd g = update rnd g.
Proof.
  intros Ho Hp. unfold advance_tick, bind, gets. rewrite Ho, Hp. reflexivity.
Qed.

Lemma relocate_free (rnd : nat) (occupied : list Point) (f : Food) :
  (exists c, in_grid c = true /\ point_in c occupied = false) ->
  exists p, relocate rnd occupied f = (Return tt, mkFood p)
            /\ in_grid p = true /\ point_in p occupied = false.
Proof.
  intros Hfree.
  destruct (random_position_free rnd occupied f Hfree) as (p & Hp & Hg & Hn).
  exists p. unfold relocate, bind. rewrite Hp. auto.
Qed.

Lemma relocate_full (rnd : nat) (occupied : list Point) (f : Food) :
  covers_grid occupied -> relocate rnd occupied f = (Raise IndexError, f).
Proof.
  intros Hcov. unfold relocate, bind.
  rewrite (random_position_full rnd occupied f Hcov). reflexivity.
Qed.

(** ** Food *)

(** C7.  When some cell of the grid is not in [occupied], [relocate]
    returns normally at every draw of the generator, and the position it
    stores is a cell of the grid that is not in [occupied]. *)
Theorem relocate_not_occupied (rnd : nat) (occupied : list Point) (f : Food) :
  (exists c, in_grid c = true /\ point_in c occupied = false) ->
  exists f', relocate rnd occupied f = (Return tt, f')
             /\ in_grid (position f') = true
             /\ point_in (position f') occupied = false
             /\ ~ In (position f') occupied.
Proof.
  intros Hfree. destruct (relocate_free rnd occupied f Hfree) as (p & Hp & Hg & Hn).
  exists (mkFood p). cbn [position]. repeat split; try assumption.
  apply point_in_false; assumption.
Qed.

Lemma relocate_not_occupied_witness :
  exists f', relocate 42 (body Snake_init) (mkFood (mkPoint 15 11)) = (Return tt, f')
             /\ point_in (position f') (body Snake_init) = false.
Proof.
  destruct (relocate_not_occupied 42 (body Snake_init) (mkFood (mkPoint 15 11)))
    as (f' & Hf & _ & Hn & _).
  - exists (mkPoint 0 0). split; reflexivity.
  - exists f'. split; assumption.
Defined.

(** ** The game *)

(** C1.  The snake [(14,11),(15,11),(16,11)] moving left with food at
    [(13,11)]: one tick returns normally, at every draw, with body
    [(13,11),(14,11),(15,11)], score 10, two cells of growth pending, the
    game not over, and the food on a cell of the grid outside the new body. *)
Theorem eating_tick (rnd : nat) :
  exists p,
    advance_tick rnd eating_game
    = (Return tt,
       {| snake := {| body := [mkPoint 13 11; mkPoint 14 11; mkPoint 15 11];
                      direction := mkPoint (-1) 0;
                      pending_direction := mkPoint (-1) 0;
                      grow_pending := 2 |};
          food := mkFood p;
          score := 10;
          game_over := false;
          paused := false |})
    /\ in_grid p = true
    /\ ~ In p [mkPoint 13 11; mkPoint 14 11; mkPoint 15 11].
Proof.
  rewrite advance_tick_active by reflexivity.
  rewrite (update_eat rnd eating_game (mkPoint 14 11) [mkPoint 15 11; mkPoint 16 11])
    by reflexivity.
  change (body (after_move (snake eating_game)))
    with [mkPoint 13 11; mkPoint 14 11; mkPoint 15 11].
  unfold on_food, on.
  destruct (relocate_free rnd [mkPoint 13 11; mkPoint 14 11; mkPoint 15 11]
                          (food (fed eating_game)))
    as (p & Hp & Hg & Hn).
  - exists (mkPoint 0 0). split; reflexivity.
  - exists p. rewrite Hp. repeat split; try assumption.
    apply point_in_false; assumption.
Qed.

(** C4 as stated fails: [grow_pending] is not always left unchanged by a
    tick that ends on a wall.  [move] runs before the bounds test, so growth
    that is pending is paid out on that tick too.  The snake below has just
    eaten at [(1,5)] and moved once; its next tick takes the head to
    [(-1,5)], outside the grid: the game is over, [grow_pending] has gone
    from 1 to 0 and the body from four cells to five. *)
Lemma wall_tick_grow_pending_changes :
  let g := mkGame (mkSnake [mkPoint 0 5; mkPoint 1 5; mkPoint 2 5; mkPoint 3 5]
                           (mkPoint (-1) 0) (mkPoint (-1) 0) 1)
                  (mkFood (mkPoint 9 9)) 10 false false in
  let g' := snd (advance_tick 0 g) in
  well_formed g = true
  /\ game_over g = false
  /\ paused g = false
  /\ head (snake g') = (Return (mkPoint (-1) 5), snake g')
  /\ in_grid (mkPoint (-1) 5) = false
  /\ fst (advance_tick 0 g) = Return tt
  /\ game_over g' = true
  /\ grow_pending (snake g) = 1
  /\ grow_pending (snake g') = 0
  /\ grow_pending (snake g') <> grow_pending (snake g)
  /\ length (body (snake g)) = 4%nat
  /\ length (body (snake g')) = 5%nat.
Proof.
  cbv zeta. repeat split; try (vm_compute; reflexivity).
  vm_compute. discriminate.
Qed.

(** C4, what the code does.  In a game that is neither over nor paused, when
    the cell the head moves to is outside the grid, the tick returns normally
    with [game_over] set and nothing else done after the move: the snake is
    exactly as [move] left it, the food, the score and [paused] are as before
    the tick, no growth is added and the body is not tested.  So
    [grow_pending] is one less than before the tick if it was positive, the
    whole old body then following the new head, and is unchanged otherwise,
    the old body less its last cell then following the new head. *)
Theorem wall_tick (rnd : nat) (g : SnakeGame) (h : Point) (t : list Point) :
  game_over g = false ->
  paused g = false ->
  body (snake g) = h :: t ->
  in_grid (mkPoint (x h + x (pending_direction (snake g)))
                   (y h + y (pending_direction (snake g)))) = false ->
  let g' := snd (advance_tick rnd g) in
  let new_head := mkPoint (x h + x (pending_direction (snake g)))
                          (y h + y (pending_direction (snake g))) in
  fst (advance_tick rnd g) = Return tt
  /\ game_over g' = true
  /\ snake g' = after_move (snake g)
  /\ grow_pending (snake g')
     = (if grow_pending (snake g) >? 0 then grow_pending (snake g) - 1
        else grow_pending (snake g))
  /\ body (snake g')
     = new_head :: (if grow_pending (snake g) >? 0 then h :: t
                    else removelast (h :: t))
  /\ food g' = food g
  /\ score g' = score g
  /\ paused g' = paused g.
Proof.
  intros Ho Hp Hb Hout. cbv zeta.
  rewrite (advance_tick_active rnd g Ho Hp), (update_cons rnd g h t Hb).
  unfold ahead. rewrite Hout. cbn [negb fst snd].
  cbn [game_over snake food score paused set_game_over set_snake].
  repeat split; try reflexivity;
    unfold after_move; rewrite (move_cons _ h t Hb); reflexivity.
Qed.

Lemma wall_tick_witness :
  let g := mkGame (mkSnake [mkPoint 0 5; mkPoint 1 5; mkPoint 2 5; mkPoint 3 5]
                           (mkPoint (-1) 0) (mkPoint (-1) 0) 1)
                  (mkFood (mkPoint 9 9)) 10 false false in
  game_over (snd (advance_tick 0 g)) = true
  /\ grow_pending (snake (snd (advance_tick 0 g))) = 0
  /\ score (snd (advance_tick 0 g)) = 10.
Proof.
  intros g.
  destruct (wall_tick 0 g (mkPoint 0 5) [mkPoint 1 5; mkPoint 2 5; mkPoint 3 5]
                      eq_refl eq_refl eq_refl eq_refl)
    as (_ & Hover & _ & Hgrow & _ & _ & Hscore & _).
  split; [exact Hover | split; [exact Hgrow | exact Hscore]].
Defined.

(** C6.  When the game is paused or over, the tick returns normally and
    leaves the whole game (snake, food, score, flags) as it was. *)
Theorem idle_tick (rnd : nat) (g : SnakeGame) :
  paused g = true \/ game_over g = true ->
  advance_tick rnd g = (Return tt, g).
Proof.
  intros H. unfold advance_tick, bind, gets, ret.
  destruct H as [-> | ->]; [rewrite andb_false_r | rewrite andb_false_l];
    reflexivity.
Qed.

Lemma idle_tick_witness :
  advance_tick 3 (set_paused true eating_game) = (Return tt, set_paused true eating_game)
  /\ advance_tick 3 (set_game_over true eating_game)
     = (Return tt, set_game_over true eating_game).
Proof.
  split; apply idle_tick; [left | right]; reflexivity.
Defined.

(** C8.  From any game whatever, [reset] returns normally, at every draw,
    with score 0, the game neither over nor paused, a new snake (the three
    cells [(15,11),(16,11),(17,11)] moving left) and the food on a cell of
    the grid outside that snake. *)
Theorem reset_spec (rnd : nat) (g : SnakeGame) :
  exists p,
    reset rnd g
    = (Return tt,
       {| snake := Snake_init;
          food := mkFood p;
          score := 0;
          game_over := false;
          paused := false |})
    /\ body Snake_init = [mkPoint 15 11; mkPoint 16 11; mkPoint 17 11]
    /\ in_grid p = true
    /\ ~ In p (body Snake_init).
Proof.
  destruct (random_position_free rnd (body Snake_init) (set_snake Snake_init g))
    as (p & Hp & Hg & Hn).
  - exists (mkPoint 0 0). split; reflexivity.
  - exists p. unfold reset, bind, modify, gets, Food_init, bind.
    cbn [snake set_snake]. rewrite Hp.
    repeat split; try assumption; try reflexivity.
    apply point_in_false; assumption.
Qed.

(** ** A grid with no free cell *)

Lemma serpentine_covers : covers_grid serpentine.
Proof.
  assert (Hall : forallb (fun p => point_in p serpentine) grid_cells = true)
    by (vm_compute; reflexivity).
  intros p Hp. rewrite forallb_forall in Hall. apply Hall, In_grid_cells, Hp.
Qed.

Lemma full_game_after_move : body (after_move (snake full_game)) = serpentine.
Proof. vm_compute; reflexivity. Qed.

(** C2 as stated fails.  [full_game] is a well-formed game in play; its tick
    moves the head onto the food, after which the body fills the grid and
    [relocate] has no cell to choose from.  The tick raises [IndexError] and
    [game_over] is still false. *)
Lemma full_grid_tick_not_over :
  well_formed full_game = true
  /\ covers_grid (body (after_move (snake full_game)))
  /\ fst (advance_tick 0 full_game) = Raise IndexError
  /\ game_over (snd (advance_tick 0 full_game)) = false.
Proof.
  split; [vm_compute; reflexivity |].
  split; [rewrite full_game_after_move; exact serpentine_covers |].
  split; vm_compute; reflexivity.
Qed.

(** C2, what the code does.  When no cell of the grid is outside [occupied],
    [relocate] raises [IndexError] and leaves the food where it was.  In a
    tick of a game in play in which the snake eats and then fills the grid,
    that exception leaves the tick: the game is not over, the food has not
    moved, and the snake has the body [move] gave it, with the two cells of
    growth and the ten points already added. *)
Theorem full_grid_tick (rnd : nat) (occupied : list Point) (f : Food)
        (g : SnakeGame) (h : Point) (t : list Point) :
  covers_grid occupied ->
  game_over g = false ->
  paused g = false ->
  body (snake g) = h :: t ->
  let s' := after_move (snake g) in
  let new_head := mkPoint (x h + x (pending_direction (snake g)))
                          (y h + y (pending_direction (snake g))) in
  in_grid new_head = true ->
  point_in new_head (tl (body s')) = false ->
  position (food g) = new_head ->
  body s' = occupied ->
  let g' := snd (advance_tick rnd g) in
  relocate rnd occupied f = (Raise IndexError, f)
  /\ fst (advance_tick rnd g) = Raise IndexError
  /\ game_over g' = false
  /\ paused g' = false
  /\ food g' = food g
  /\ body (snake g') = body s'
  /\ grow_pending (snake g') = grow_pending s' + 2
  /\ score g' = score g + 10.
Proof.
  intros Hcov Ho Hp Hb s' new_head Hin Hself Hfood Hocc. cbv zeta.
  split; [apply relocate_full; assumption |].
  rewrite (advance_tick_active rnd g Ho Hp).
  rewrite (update_eat rnd g h t Hb Hin Hself Hfood). fold s'.
  unfold on_food, on. rewrite Hocc, (relocate_full rnd occupied _ Hcov).
  cbn. rewrite Ho, Hp. repeat split; try reflexivity. exact Hocc.
Qed.

Lemma full_grid_tick_witness :
  fst (advance_tick 7 full_game) = Raise IndexError
  /\ game_over (snd (advance_tick 7 full_game)) = false
  /\ score (snd (advance_tick 7 full_game)) = 10.
Proof.
  destruct (full_grid_tick 7 serpentine (mkFood (mkPoint 0 0)) full_game
                           (mkPoint 0 1) (tl (tl serpentine)))
    as (_ & Hraise & Hover & _ & _ & _ & _ & Hscore).
  - exact serpentine_covers.
  - reflexivity.
  - reflexivity.
  - vm_compute; reflexivity.
  - vm_compute; reflexivity.
  - vm_compute; reflexivity.
  - reflexivity.
  - vm_compute; reflexivity.
  - repeat split; assumption.
Defined.

(** * Further properties of the engine *)

(** ** Lists of cells *)

Lemma distinct_NoDup (l : list Point) : distinct l = true <-> NoDup l.
Proof.
  induction l as [|p l IH]; cbn [distinct].
  - split; [constructor | reflexivity].
  - rewrite andb_true_iff, negb_true_iff, point_in_false, IH. split.
    + intros [Hn Hd]; constructor; assumption.
    + intros H; inversion H; subst; split; assumption.
Qed.

Lemma In_removelast {A} (a : A) (l : list A) : In a (removelast l) -> In a l.
Proof.
  induction l as [|b [|c l] IH]; [intros [] .. |].
  change (removelast (b :: c :: l)) with (b :: removelast (c :: l)).
  intros [-> | H]; [left; reflexivity | right; apply IH, H].
Qed.

Lemma point_in_removelast (p : Point) (l : list Point) :
  point_in p l = false -> point_in p (removelast l) = false.
Proof.
  rewrite !point_in_false. intros Hn Hin. apply Hn, In_removelast, Hin.
Qed.

Lemma distinct_removelast (l : list Point) :
  distinct l = true -> distinct (removelast l) = true.
Proof.
  induction l as [|b [|c l] IH]; [reflexivity .. |].
  change (removelast (b :: c :: l)) with (b :: removelast (c :: l)).
  intros H. change (negb (point_in b (c :: l)) && distinct (c :: l) = true) in H.
  apply andb_true_iff in H as [Hn Hd]. apply negb_true_iff in Hn.
  change (negb (point_in b (removelast (c :: l)))
          && distinct (removelast (c :: l)) = true).
  rewrite (point_in_removelast b (c :: l) Hn), (IH Hd). reflexivity.
Qed.

Lemma linked_removelast (l : list Point) :
  linked l = true -> linked (removelast l) = true.
Proof.
  induction l as [|a [|b [|c l]] IH]; [reflexivity .. |].
  change (removelast (a :: b :: c :: l)) with (a :: b :: removelast (c :: l)).
  change (removelast (b :: c :: l)) with (b :: removelast (c :: l)) in IH.
  cbn [linked] in *. rewrite !andb_true_iff. intros (Hab & Hbc & Hl).
  split; [exact Hab |]. apply IH. rewrite andb_true_iff. split; assumption.
Qed.

Lemma forallb_removelast {A} (f : A -> bool) (l : list A) :
  forallb f l = true -> forallb f (removelast l) = true.
Proof.
  rewrite !forallb_forall. intros H a Ha. apply H, In_removelast, Ha.
Qed.

Lemma last_In {A} (l : list A) (d : A) : l <> [] -> In (last l d) l.
Proof.
  intros Hl. rewrite (app_removelast_last d Hl) at 2.
  apply in_or_app; right; left; reflexivity.
Qed.

Lemma last_not_in_removelast (l : list Point) (d : Point) :
  distinct l = true -> l <> [] -> point_in (last l d) (removelast l) = false.
Proof.
  intros Hd Hl. apply point_in_false. apply distinct_NoDup in Hd.
  rewrite (app_removelast_last d Hl) in Hd at 1.
  apply NoDup_remove_2 in Hd. rewrite app_nil_r in Hd. exact Hd.
Qed.

(** ** More on the snake *)

Lemma hits_self_cons (s : Snake) (h : Point) (t : list Point) :
  body s = h :: t -> hits_self s = (Return (point_in h t), s).
Proof.
  intros Hb. unfold hits_self, head, bind, gets, ret. rewrite !Hb. reflexivity.
Qed.

(** X1.  On a snake whose cells behind the head are distinct, [hits_self]
    returns true exactly when the whole body is no longer distinct, that is
    when the head lies on another cell of the body; it leaves the snake as
    it is. *)
Theorem hits_self_distinct (s : Snake) (h : Point) (t : list Point) :
  body s = h :: t ->
  distinct t = true ->
  hits_self s = (Return (negb (distinct (body s))), s)
  /\ (distinct (body s) = false <-> In h t).
Proof.
  intros Hb Ht. rewrite (hits_self_cons s h t Hb), Hb. cbn [distinct].
  rewrite Ht, andb_true_r, negb_involutive. split; [reflexivity |].
  rewrite negb_false_iff. apply point_in_In.
Qed.

Lemma hits_self_distinct_witness :
  fst (hits_self Snake_init) = Return false
  /\ fst (hits_self (mkSnake [mkPoint 4 4; mkPoint 4 5; mkPoint 5 5; mkPoint 5 4;
                              mkPoint 4 4]
                             (mkPoint 0 (-1)) (mkPoint 0 (-1)) 0))
     = Return true.
Proof.
  split.
  - rewrite (proj1 (hits_self_distinct Snake_init (mkPoint 15 11)
                      [mkPoint 16 11; mkPoint 17 11] eq_refl eq_refl)).
    reflexivity.
  - rewrite (proj1 (hits_self_distinct
                      (mkSnake [mkPoint 4 4; mkPoint 4 5; mkPoint 5 5; mkPoint 5 4;
                                mkPoint 4 4]
                               (mkPoint 0 (-1)) (mkPoint 0 (-1)) 0)
                      (mkPoint 4 4)
                      [mkPoint 4 5; mkPoint 5 5; mkPoint 5 4; mkPoint 4 4]
                      eq_refl eq_refl)).
    reflexivity.
Defined.

Lemma after_move_keeps (s : Snake) :
  body s <> [] ->
  0 <= grow_pending s ->
  body (after_move s) <> []
  /\ grow_pending (after_move s) = grow_pending s - Z.min 1 (grow_pending s)
  /\ Z.of_nat (length (body (after_move s)))
     = Z.of_nat (length (body s)) + Z.min 1 (grow_pending s).
Proof.
  destruct (body s) as [|h t] eqn:Hb; [congruence | intros _ Hg].
  unfold after_move. rewrite (move_cons s h t Hb).
  cbn [snd body grow_pending]. split; [discriminate |].
  destruct (grow_pending s >? 0) eqn:E.
  - apply Z.gtb_lt in E. cbn [length]. lia.
  - rewrite Z.gtb_ltb in E. apply Z.ltb_ge in E.
    cbn [length]. rewrite removelast_length. cbn [length]. lia.
Qed.

(** X2.  Growth is paid out one cell a move: on a snake with a body and
    [grow_pending >= 0], [k] calls of [move] all return, the body is longer
    by the smaller of [k] and [grow_pending], and [grow_pending] is less by
    as much. *)
Theorem moves_growth (k : nat) (s : Snake) :
  body s <> [] ->
  0 <= grow_pending s ->
  let s' := snd (moves k s) in
  fst (moves k s) = Return tt
  /\ Z.of_nat (length (body s'))
     = Z.of_nat (length (body s)) + Z.min (Z.of_nat k) (grow_pending s)
  /\ grow_pending s' = grow_pending s - Z.min (Z.of_nat k) (grow_pending s).
Proof.
  revert s. induction k as [|k IH]; intros s Hb Hg; cbv zeta.
  - cbn [moves ret fst snd]. repeat split; lia.
  - cbn [moves]. unfold bind. rewrite (move_returns s Hb).
    destruct (after_move_keeps s Hb Hg) as (Hb1 & Hg1 & Hl1).
    destruct (IH (after_move s) Hb1 ltac:(lia)) as (Hr & Hl & Hgp).
    split; [exact Hr |]. rewrite Hl, Hgp, Hl1, Hg1. lia.
Qed.

Lemma moves_growth_witness :
  let s := snd (grow 2 Snake_init) in
  Z.of_nat (length (body (snd (moves 5 s)))) = 5
  /\ grow_pending (snd (moves 5 s)) = 0.
Proof.
  intros s.
  destruct (moves_growth 5 s) as (_ & Hl & Hg).
  - discriminate.
  - cbn. lia.
  - split; [rewrite Hl | rewrite Hg]; reflexivity.
Defined.

(** X3.  Moving onto the cell of one's own last segment: with a distinct
    body, when the cell ahead of the head is the last cell of the body, the
    moved snake does not hit itself if no growth is pending (the last cell
    has been vacated), and does hit itself if growth is pending (the last
    cell is kept). *)
Theorem follow_tail (s : Snake) (h : Point) (t : list Point) :
  body s = h :: t ->
  distinct (body s) = true ->
  mkPoint (x h + x (pending_direction s)) (y h + y (pending_direction s))
  = last (body s) h ->
  (grow_pending s <= 0 ->
   hits_self (after_move s) = (Return false, after_move s))
  /\ (0 < grow_pending s ->
      hits_self (after_move s) = (Return true, after_move s)).
Proof.
  intros Hb Hd Hlast.
  pose proof (after_move_body s h t Hb) as Hbody. unfold ahead in Hbody.
  rewrite Hlast, Hb in Hbody. rewrite Hb in Hd. split; intros Hg.
  - assert (E : (grow_pending s >? 0) = false)
      by (rewrite Z.gtb_ltb; apply Z.ltb_ge; lia).
    rewrite E in Hbody. rewrite (hits_self_cons _ _ _ Hbody).
    rewrite last_not_in_removelast by (assumption || discriminate). reflexivity.
  - assert (E : (grow_pending s >? 0) = true) by (apply Z.gtb_lt; lia).
    rewrite E in Hbody. rewrite (hits_self_cons _ _ _ Hbody).
    replace (point_in (last (h :: t) h) (h :: t)) with true; [reflexivity |].
    symmetry. apply point_in_In, last_In. discriminate.
Qed.

Lemma follow_tail_witness :
  let b := [mkPoint 1 1; mkPoint 1 2; mkPoint 2 2; mkPoint 2 1] in
  fst (hits_self (after_move (mkSnake b (mkPoint 0 (-1)) (mkPoint 1 0) 0)))
  = Return false
  /\ fst (hits_self (after_move (mkSnake b (mkPoint 0 (-1)) (mkPoint 1 0) 1)))
     = Return true.
Proof.
  intros b. split.
  - rewrite (proj1 (follow_tail (mkSnake b (mkPoint 0 (-1)) (mkPoint 1 0) 0)
                      (mkPoint 1 1) [mkPoint 1 2; mkPoint 2 2; mkPoint 2 1]
                      eq_refl eq_refl eq_refl)).
    + reflexivity.
    + cbn. lia.
  - rewrite (proj2 (follow_tail (mkSnake b (mkPoint 0 (-1)) (mkPoint 1 0) 1)
                      (mkPoint 1 1) [mkPoint 1 2; mkPoint 2 2; mkPoint 2 1]
                      eq_refl eq_refl eq_refl)).
    + reflexivity.
    + cbn. lia.
Defined.

(** ** The other outcomes of a tick *)

Lemma hits_self_after_move (s : Snake) (h : Point) (t : list Point) (b : bool) :
  body s = h :: t ->
  fst (hits_self (after_move s)) = Return b ->
  point_in (ahead h (pending_direction s)) (tl (body (after_move s))) = b.
Proof.
  intros Hb Hhit. pose proof (after_move_body s h t Hb) as Hbody.
  rewrite (hits_self_cons _ _ _ Hbody) in Hhit. cbn [fst] in Hhit.
  rewrite Hbody. cbn [tl]. congruence.
Qed.

(** X4.  In a game in play, when the head moves to a cell of the grid on
    which the moved snake hits itself, the tick returns with [game_over] set
    and the snake as [move] left it; the food, the score and [paused] are
    untouched. *)
Theorem self_hit_tick (rnd : nat) (g : SnakeGame) (h : Point) (t : list Point) :
  game_over g = false ->
  paused g = false ->
  body (snake g) = h :: t ->
  in_grid (ahead h (pending_direction (snake g))) = true ->
  fst (hits_self (after_move (snake g))) = Return true ->
  advance_tick rnd g
  = (Return tt,
     {| snake := after_move (snake g);
        food := food g;
        score := score g;
        game_over := true;
        paused := false |}).
Proof.
  intros Ho Hp Hb Hin Hhit.
  rewrite (advance_tick_active rnd g Ho Hp), (update_cons rnd g h t Hb).
  cbv zeta. rewrite Hin, (hits_self_after_move _ h t true Hb Hhit).
  cbn [negb]. unfold set_game_over, set_snake; cbn. rewrite Hp. reflexivity.
Qed.

Lemma self_hit_tick_witness :
  let g := mkGame (mkSnake [mkPoint 5 5; mkPoint 5 6; mkPoint 6 6; mkPoint 6 5;
                            mkPoint 7 5]
                           (mkPoint 0 (-1)) (mkPoint 1 0) 0)
                  (mkFood (mkPoint 9 9)) 20 false false in
  game_over (snd (advance_tick 0 g)) = true /\ score (snd (advance_tick 0 g)) = 20.
Proof.
  intros g.
  rewrite (self_hit_tick 0 g (mkPoint 5 5)
             [mkPoint 5 6; mkPoint 6 6; mkPoint 6 5; mkPoint 7 5]
             eq_refl eq_refl eq_refl eq_refl eq_refl).
  split; reflexivity.
Defined.

(** X5.  In a game in play, when the head moves onto the food, on a cell
    of the grid and without hitting the snake, and the moved snake leaves a
    cell of the grid free: the tick returns, at every draw, with two more
    cells of growth pending, ten more points, and the food on a cell of the
    grid outside the moved body; the game is neither over nor paused. *)
Theorem food_tick (rnd : nat) (g : SnakeGame) (h : Point) (t : list Point) :
  game_over g = false ->
  paused g = false ->
  body (snake g) = h :: t ->
  let s' := after_move (snake g) in
  in_grid (ahead h (pending_direction (snake g))) = true ->
  fst (hits_self s') = Return false ->
  position (food g) = ahead h (pending_direction (snake g)) ->
  (exists c, in_grid c = true /\ point_in c (body s') = false) ->
  exists p,
    advance_tick rnd g
    = (Return tt,
       {| snake := {| body := body s';
                      direction := direction s';
                      pending_direction := pending_direction s';
                      grow_pending := grow_pending s' + 2 |};
          food := mkFood p;
          score := score g + 10;
          game_over := false;
          paused := false |})
    /\ in_grid p = true
    /\ ~ In p (body s').
Proof.
  intros Ho Hp Hb s' Hin Hhit Hfood Hfree.
  rewrite (advance_tick_active rnd g Ho Hp).
  rewrite (update_eat rnd g h t Hb Hin (hits_self_after_move _ h t false Hb Hhit) Hfood).
  fold s'. destruct (relocate_free rnd (body s') (food (fed g)) Hfree)
    as (p & Hrel & Hg & Hn).
  exists p. unfold on_food, on. rewrite Hrel.
  unfold fed, set_food, set_score, set_snake, set_grow_pending; cbn. fold s'.
  rewrite Ho, Hp. repeat split; try assumption. apply point_in_false, Hn.
Qed.

Lemma food_tick_witness :
  exists p, score (snd (advance_tick 11 eating_game)) = 10
            /\ food (snd (advance_tick 11 eating_game)) = mkFood p
            /\ in_grid p = true.
Proof.
  destruct (food_tick 11 eating_game (mkPoint 14 11) [mkPoint 15 11; mkPoint 16 11]
                      eq_refl eq_refl eq_refl eq_refl eq_refl eq_refl)
    as (p & Htick & Hg & _).
  - exists (mkPoint 0 0). split; reflexivity.
  - exists p. rewrite Htick. repeat split. exact Hg.
Defined.

(** X6.  In a game in play, when the head moves to a cell of the grid that
    is not the food's and the moved snake does not hit itself, the tick
    returns having changed the snake only, to what [move] makes of it. *)
Theorem plain_tick (rnd : nat) (g : SnakeGame) (h : Point) (t : list Point) :
  game_over g = false ->
  paused g = false ->
  body (snake g) = h :: t ->
  in_grid (ahead h (pending_direction (snake g))) = true ->
  fst (hits_self (after_move (snake g))) = Return false ->
  position (food g) <> ahead h (pending_direction (snake g)) ->
  advance_tick rnd g
  = (Return tt,
     {| snake := after_move (snake g);
        food := food g;
        score := score g;
        game_over := false;
        paused := false |}).
Proof.
  intros Ho Hp Hb Hin Hhit Hfood.
  rewrite (advance_tick_active rnd g Ho Hp), (update_cons rnd g h t Hb).
  cbv zeta. rewrite Hin, (hits_self_after_move _ h t false Hb Hhit). cbn [negb].
  destruct (point_eqb _ (position (food g))) eqn:E.
  - apply point_eqb_eq in E. congruence.
  - unfold set_snake. rewrite Ho, Hp. reflexivity.
Qed.

Lemma plain_tick_witness :
  body (snake (snd (advance_tick 0 (mkGame Snake_init (mkFood (mkPoint 3 3))
                                           0 false false))))
  = [mkPoint 14 11; mkPoint 15 11; mkPoint 16 11].
Proof.
  rewrite (plain_tick 0 (mkGame Snake_init (mkFood (mkPoint 3 3)) 0 false false)
             (mkPoint 15 11) [mkPoint 16 11; mkPoint 17 11]
             eq_refl eq_refl eq_refl eq_refl eq_refl).
  - reflexivity.
  - discriminate.
Defined.

(** ** Events *)

Lemma handle_events_app (a b : list (nat * Event)) (g : SnakeGame) :
  handle_events (a ++ b) g = (handle_events a ;; handle_events b) g.
Proof.
  revert g. induction a as [|[rnd e] a IH]; intros g; [reflexivity |].
  cbn [app handle_events]. unfold bind in *.
  destruct (handle_event rnd e g) as [[[]|ex] g1]; [apply IH | reflexivity].
Qed.

Lemma ticks_idle (rnds : list nat) (g : SnakeGame) :
  paused g = true \/ game_over g = true -> ticks rnds g = (Return tt, g).
Proof.
  intros H. induction rnds as [|rnd r IH]; [reflexivity |].
  cbn [ticks]. unfold bind at 1.
  replace (advance_tick rnd g) with (Return tt, g); [exact IH |].
  unfold advance_tick, bind, gets, ret.
  destruct H as [-> | ->]; [rewrite andb_false_r | rewrite andb_false_l];
    reflexivity.
Qed.

(** X7.  Space pauses and space resumes: in a game in play, pressing space,
    letting any number of ticks pass and pressing space again returns the
    game exactly as it was. *)
Theorem pause_freezes (r1 r2 : nat) (rnds : list nat) (g : SnakeGame) :
  game_over g = false ->
  paused g = false ->
  (handle_keydown r1 K_SPACE ;; ticks rnds ;; handle_keydown r2 K_SPACE) g
  = (Return tt, g).
Proof.
  intros Ho Hp. unfold bind at 1.
  assert (H1 : handle_keydown r1 K_SPACE g = (Return tt, set_paused true g)).
  { unfold handle_keydown; cbn [DIRECTION_VECTORS].
    unfold bind, gets, modify. rewrite Ho. cbn. rewrite Hp. reflexivity. }
  rewrite H1. unfold bind at 1.
  rewrite (ticks_idle rnds (set_paused true g)) by (left; reflexivity).
  unfold handle_keydown; cbn [DIRECTION_VECTORS]. unfold bind, gets, modify.
  cbn. rewrite Ho. cbn. destruct g; cbn in *; subst; reflexivity.
Qed.

Lemma pause_freezes_witness :
  (handle_keydown 0 K_SPACE ;; ticks [1%nat; 2%nat; 3%nat] ;; handle_keydown 4 K_SPACE)
    eating_game
  = (Return tt, eating_game).
Proof. apply pause_freezes; reflexivity. Defined.

(** X8.  A [QUIT] event or the escape key raises [SystemExit] and ends
    [handle_events] there: the events before it have been handled, the game
    is left as they made it, and the events after it are not looked at. *)
Theorem quit_stops (before after : list (nat * Event)) (rnd : nat) (e : Event)
        (g g1 : SnakeGame) :
  e = QUIT \/ e = KEYDOWN K_ESCAPE ->
  handle_events before g = (Return tt, g1) ->
  handle_events (before ++ (rnd, e) :: after) g = (Raise SystemExit, g1).
Proof.
  intros He Hbefore. rewrite handle_events_app. unfold bind at 1.
  rewrite Hbefore. cbn [handle_events]. unfold bind.
  destruct He as [-> | ->]; reflexivity.
Qed.

Lemma quit_stops_witness :
  handle_events [(0%nat, KEYDOWN K_UP); (0%nat, QUIT); (0%nat, KEYDOWN K_r)]
                eating_game
  = (Raise SystemExit,
     set_snake (set_pending (mkPoint 0 (-1)) (snake eating_game)) eating_game).
Proof.
  apply (quit_stops [(0%nat, KEYDOWN K_UP)] [(0%nat, KEYDOWN K_r)] 0 QUIT).
  - left; reflexivity.
  - reflexivity.
Defined.

Lemma direction_key (rnd : nat) (k : Key) (d : Point) (g : SnakeGame) :
  DIRECTION_VECTORS k = Some d ->
  handle_keydown rnd k g
  = (Return tt,
     set_snake (set_pending
                  (if is_opposite d (direction (snake g))
                   then pending_direction (snake g) else d)
                  (snake g)) g).
Proof.
  intros Hk. unfold handle_keydown. rewrite Hk.
  unfold on_snake, on, set_direction, bind, gets, modify, ret.
  destruct (is_opposite d (direction (snake g)));
    destruct g as [[b c pd gp] f sc o pa]; reflexivity.
Qed.

(** X9.  Direction keys handled between two ticks are all tested against
    the same committed direction: after any run of them the pending direction
    is that of the last key that is not the opposite of the committed
    direction (the pending direction of before if there is none), and nothing
    else in the game has changed. *)
Theorem direction_requests (reqs : list (nat * Key)) (ds : list Point)
        (g : SnakeGame) :
  map (fun r => DIRECTION_VECTORS (snd r)) reqs = map Some ds ->
  handle_events (map (fun r => (fst r, KEYDOWN (snd r))) reqs) g
  = (Return tt,
     {| snake := {| body := body (snake g);
                    direction := direction (snake g);
                    pending_direction :=
                      last_accepted (direction (snake g))
                                    (pending_direction (snake g)) ds;
                    grow_pending := grow_pending (snake g) |};
        food := food g;
        score := score g;
        game_over := game_over g;
        paused := paused g |}).
Proof.
  revert ds g. induction reqs as [|[rnd k] reqs IH]; intros ds g Hds.
  - destruct ds; [| discriminate].
    destruct g as [[b c pd gp] f sc o pa]; reflexivity.
  - destruct ds as [|d ds]; [discriminate |].
    cbn [map fst snd] in Hds. injection Hds as Hk Hds.
    cbn [map fst snd handle_events handle_event]. unfold bind.
    rewrite (direction_key rnd k d g Hk), (IH ds _ Hds).
    unfold last_accepted; cbn. reflexivity.
Qed.

Lemma direction_requests_witness :
  pending_direction
    (snake (snd (handle_events [(0%nat, KEYDOWN K_UP); (0%nat, KEYDOWN K_RIGHT)]
                               eating_game)))
  = mkPoint 0 (-1).
Proof.
  pose proof (direction_requests [(0%nat, K_UP); (0%nat, K_RIGHT)]
                                 [mkPoint 0 (-1); mkPoint 1 0] eating_game eq_refl)
    as H.
  cbn [map fst snd] in H. rewrite H. reflexivity.
Defined.

(** ** What the loop keeps *)

Lemma bind_keeps {St A B} (P : St -> Prop) (m : M St A) (k : A -> M St B) (s : St) :
  (forall s0, P s0 -> P (snd (m s0))) ->
  (forall a s0, P s0 -> P (snd (k a s0))) ->
  P s -> P (snd (bind m k s)).
Proof.
  intros Hm Hk Hs. unfold bind. specialize (Hm s Hs).
  destruct (m s) as [[a|e] s1]; cbn [snd] in *; [apply Hk |]; assumption.
Qed.

Lemma bind_returns {St A B} (m : M St A) (k : A -> M St B) (s s2 : St) (b : B) :
  bind m k s = (Return b, s2) ->
  exists a s1, m s = (Return a, s1) /\ k a s1 = (Return b, s2).
Proof.
  unfold bind. destruct (m s) as [[a|e] s1]; intros H; [| discriminate].
  exists a, s1. split; [reflexivity | exact H].
Qed.

Lemma bind_raises {St A B} (m : M St A) (k : A -> M St B) (s s2 : St) (e : exn) :
  bind m k s = (Raise e, s2) ->
  m s = (Raise e, s2)
  \/ exists a s1, m s = (Return a, s1) /\ k a s1 = (Raise e, s2).
Proof.
  unfold bind. destruct (m s) as [[a|e1] s1]; intros H.
  - right. exists a, s1. split; [reflexivity | exact H].
  - left. injection H as -> ->. reflexivity.
Qed.

Lemma reset_fresh (rnd : nat) (g : SnakeGame) :
  exists p, reset rnd g = (Return tt, mkGame Snake_init (mkFood p) 0 false false)
            /\ in_grid p = true /\ point_in p (body Snake_init) = false.
Proof.
  destruct (random_position_free rnd (body Snake_init) (set_snake Snake_init g))
    as (p & Hp & Hg & Hn).
  - exists (mkPoint 0 0). split; reflexivity.
  - exists p. unfold reset, bind, modify, gets, Food_init, bind.
    cbn [snake set_snake]. rewrite Hp. repeat split; assumption.
Qed.

Lemma relocate_returns (rnd : nat) (occupied : list Point) (f f' : Food) :
  relocate rnd occupied f = (Return tt, f') ->
  in_grid (position f') = true /\ point_in (position f') occupied = false.
Proof.
  unfold relocate, bind, _random_position.
  destruct (available occupied) as [|a l] eqn:E; [discriminate |].
  destruct (random_choice_In (St := Food) rnd (a :: l) f) as (p & Hp & Hin);
    [discriminate |].
  rewrite Hp. unfold modify. intros [= <-]. cbn [position].
  rewrite <- E in Hin. apply In_available, Hin.
Qed.

Lemma relocate_raises (rnd : nat) (occupied : list Point) (f f' : Food) (e : exn) :
  relocate rnd occupied f = (Raise e, f') ->
  e = IndexError /\ f' = f /\ covers_grid occupied.
Proof.
  unfold relocate, bind, _random_position.
  destruct (available occupied) as [|a l] eqn:E.
  - cbn. intros [= <- <-]. repeat split. intros p Hp.
    destruct (point_in p occupied) eqn:Hin; [reflexivity |].
    assert (In p (available occupied)) by (apply In_available; auto).
    rewrite E in *. contradiction.
  - destruct (random_choice_In (St := Food) rnd (a :: l) f) as (p & Hp & _);
      [discriminate |].
    rewrite Hp. discriminate.
Qed.

(** *** The score and the length *)

Lemma score_law_keydown (rnd : nat) (k : Key) (g : SnakeGame) :
  score_law g -> score_law (snd (handle_keydown rnd k g)).
Proof.
  intros H.
  destruct (DIRECTION_VECTORS k) as [d|] eqn:Hk.
  - rewrite (direction_key rnd k d g Hk). exact H.
  - unfold handle_keydown. rewrite Hk. destruct k; try discriminate; try exact H.
    + unfold bind, gets, modify. destruct (negb (game_over g)); exact H.
    + destruct (reset_fresh rnd g) as (p & -> & _).
      unfold score_law; cbn. repeat split; try lia. discriminate.
Qed.

Lemma score_law_tick (rnd : nat) (g : SnakeGame) :
  score_law g -> score_law (snd (advance_tick rnd g)).
Proof.
  intros H. unfold advance_tick, bind, gets.
  destruct (negb (game_over g) && negb (paused g)); [| exact H].
  destruct H as (Hb & Hg & Hs & Hlaw).
  destruct (after_move_keeps (snake g) Hb Hg) as (Hb1 & Hg1 & Hl1).
  destruct (body (snake g)) as [|h t] eqn:Hbody; [congruence |].
  rewrite (update_cons rnd g h t Hbody). cbv zeta.
  assert (Hmoved : score_law (set_snake (after_move (snake g)) g)).
  { unfold score_law; cbn [snake set_snake score]. rewrite Hl1, Hg1.
    cbn [length] in *. repeat split; try assumption; lia. }
  destruct (negb (in_grid _)); [exact Hmoved |].
  destruct (point_in _ (tl _)); [exact Hmoved |].
  destruct (point_eqb _ _); [| exact Hmoved].
  unfold on_food, on. destruct (relocate _ _ _) as [o f']. cbn [snd].
  unfold score_law, fed; cbn [snake set_snake set_food set_score score
                              set_grow_pending body grow_pending].
  rewrite Hl1, Hg1. cbn [length] in *. repeat split; try assumption; lia.
Qed.

Lemma score_law_events (evs : list (nat * Event)) (g : SnakeGame) :
  score_law g -> score_law (snd (handle_events evs g)).
Proof.
  revert g. induction evs as [|[rnd e] evs IH]; intros g H; [exact H |].
  cbn [handle_events]. apply bind_keeps; [| intros _; exact IH | exact H].
  intros g0 H0. destruct e; [exact H0 | apply score_law_keydown, H0 | exact H0].
Qed.

Lemma score_law_run_for (fs : list Frame) (g : SnakeGame) :
  score_law g -> score_law (snd (run_for fs g)).
Proof.
  revert g. induction fs as [|f fs IH]; intros g H; [exact H |].
  cbn [run_for]. apply bind_keeps; [| intros _; exact IH | exact H].
  intros g0 H0. unfold run_iteration. apply bind_keeps; [| | exact H0].
  - intros g1; apply score_law_events.
  - intros _ g1; apply score_law_tick.
Qed.

(** X10.  Whatever the events and the draws, and however the loop ends,
    the cells of the snake account for the score: at any point of a game
    started by [reset], five times the body length plus the pending growth
    is the score plus fifteen (three cells at the start, two per ten
    points); the body is never empty, and neither the pending growth nor the
    score is ever negative. *)
Theorem run_score_law (rnd : nat) (fs : list Frame) (g0 : SnakeGame) :
  let g := snd (main rnd fs g0) in
  5 * (Z.of_nat (length (body (snake g))) + grow_pending (snake g))
  = score g + 15
  /\ body (snake g) <> []
  /\ 0 <= grow_pending (snake g)
  /\ 0 <= score g.
Proof.
  cbv zeta. unfold main, bind.
  destruct (reset_fresh rnd g0) as (p & -> & _).
  assert (H : score_law (mkGame Snake_init (mkFood p) 0 false false)).
  { unfold score_law; cbn. repeat split; try lia. discriminate. }
  destruct (score_law_run_for fs _ H) as (Hb & Hg & Hs & Hlaw). auto.
Qed.

(** *** Well-formed games *)

Lemma well_formed_iff (g : SnakeGame) :
  well_formed g = true <->
  body (snake g) <> []
  /\ distinct (body (snake g)) = true
  /\ linked (body (snake g)) = true
  /\ forallb in_grid (body (snake g)) = true
  /\ in_grid (position (food g)) = true
  /\ point_in (position (food g)) (body (snake g)) = false
  /\ 0 <= grow_pending (snake g).
Proof.
  unfold well_formed. cbv zeta.
  rewrite !andb_true_iff, !negb_true_iff, Z.leb_le.
  assert (Hne : Nat.eqb (length (body (snake g))) 0 = false <-> body (snake g) <> []).
  { destruct (body (snake g)); cbn; split; congruence. }
  rewrite Hne. tauto.
Qed.

Lemma direction_step (h d : Point) :
  is_direction d ->
  (Z.abs (x (ahead h d) - x h) + Z.abs (y (ahead h d) - y h) =? 1) = true.
Proof.
  intros [k Hk]. apply Z.eqb_eq.
  destruct k; inversion Hk; subst; cbn; lia.
Qed.

Lemma moved_body (s : Snake) (h : Point) (t : list Point) :
  body s = h :: t ->
  distinct (h :: t) = true ->
  linked (h :: t) = true ->
  forallb in_grid (h :: t) = true ->
  is_direction (pending_direction s) ->
  in_grid (ahead h (pending_direction s)) = true ->
  point_in (ahead h (pending_direction s)) (tl (body (after_move s))) = false ->
  distinct (body (after_move s)) = true
  /\ linked (body (after_move s)) = true
  /\ forallb in_grid (body (after_move s)) = true
  /\ (forall p, point_in p (h :: t) = false ->
                p <> ahead h (pending_direction s) ->
                point_in p (body (after_move s)) = false).
Proof.
  intros Hb Hd Hl Hg Hdir Hin Hself.
  rewrite (after_move_body s h t Hb) in *. cbn [tl] in Hself.
  set (nh := ahead h (pending_direction s)) in *.
  set (rest := if grow_pending s >? 0 then h :: t else removelast (h :: t)) in *.
  assert (Hrd : distinct rest = true)
    by (unfold rest; destruct (_ >? _); auto using distinct_removelast).
  assert (Hrl : linked rest = true)
    by (unfold rest; destruct (_ >? _); auto using linked_removelast).
  assert (Hrg : forallb in_grid rest = true)
    by (unfold rest; destruct (_ >? _); auto using forallb_removelast).
  assert (Hri : forall p, point_in p (h :: t) = false -> point_in p rest = false)
    by (unfold rest; destruct (_ >? _); auto using point_in_removelast).
  assert (Hhd : rest = [] \/ exists r, rest = h :: r).
  { unfold rest. destruct (_ >? _); [right; eexists; reflexivity |].
    destruct t; [left | right; eexists]; reflexivity. }
  repeat split.
  - cbn [distinct]. rewrite Hself, Hrd. reflexivity.
  - destruct Hhd as [-> | [r Hr]]; [reflexivity |].
    rewrite Hr in *. cbn [linked]. cbn [linked] in Hrl.
    unfold nh. rewrite (direction_step h _ Hdir). exact Hrl.
  - cbn [forallb]. rewrite Hin, Hrg. reflexivity.
  - intros p Hp Hne. unfold point_in. cbn [existsb].
    fold (point_in p rest). rewrite (Hri p Hp), orb_false_r.
    destruct (point_eqb p nh) eqn:E; [| reflexivity].
    apply point_eqb_eq in E. contradiction.
Qed.

Lemma sound_keydown (rnd : nat) (k : Key) (g g' : SnakeGame) :
  sound g -> handle_keydown rnd k g = (Return tt, g') -> sound g'.
Proof.
  intros [Hs Hw].
  destruct (DIRECTION_VECTORS k) as [d|] eqn:Hk.
  - rewrite (direction_key rnd k d g Hk). intros [= <-]. split.
    + destruct Hs as (Hc & Hp & Hno). unfold steady; cbn.
      destruct (is_opposite d (direction (snake g))) eqn:E; repeat split;
        try assumption. exists k; exact Hk.
    + exact Hw.
  - unfold handle_keydown. rewrite Hk.
    destruct k; try discriminate; try (intros [= <-]; split; assumption).
    + unfold bind, gets, modify.
      destruct (negb (game_over g)); intros [= <-]; split; assumption.
    + destruct (reset_fresh rnd g) as (p & -> & Hg & Hn). intros [= <-]. split.
      * exact steady_init.
      * intros _. apply well_formed_iff. cbn [snake food position].
        repeat split; try assumption; try reflexivity; try discriminate.
Qed.

Lemma sound_tick (rnd : nat) (g g' : SnakeGame) :
  sound g -> advance_tick rnd g = (Return tt, g') -> sound g'.
Proof.
  intros [Hs Hw]. unfold advance_tick, bind, gets.
  destruct (game_over g) eqn:Ho; [intros [= <-]; split; [exact Hs | congruence] |].
  destruct (paused g) eqn:Hp; cbn [negb andb].
  { intros [= <-]. split; [exact Hs |]. intros _. exact (Hw eq_refl). }
  apply well_formed_iff in Hw as (Hb & Hd & Hl & Hg & Hfg & Hfn & Hgp);
    [| reflexivity].
  destruct (after_move_keeps (snake g) Hb Hgp) as (Hb1 & Hg1 & _).
  assert (Hs1 : steady (after_move (snake g))) by (apply steady_move, Hs).
  destruct (body (snake g)) as [|h t] eqn:Hbody; [congruence |].
  rewrite (update_cons rnd g h t Hbody). cbv zeta.
  destruct (in_grid (ahead h _)) eqn:Hin; cbn [negb];
    [| intros [= <-]; split; [exact Hs1 | discriminate]].
  destruct (point_in _ (tl _)) eqn:Hself;
    [intros [= <-]; split; [exact Hs1 | discriminate] |].
  destruct (moved_body (snake g) h t Hbody Hd Hl Hg (proj1 (proj2 Hs)) Hin Hself)
    as (Hd1 & Hl1 & Hgr1 & Hout).
  destruct (point_eqb _ (position (food g))) eqn:Hfood.
  - unfold on_food, on.
    destruct (relocate rnd _ (food (fed g))) as [[[]|e] f'] eqn:Hrel;
      [| discriminate].
    apply relocate_returns in Hrel as [Hpg Hpn]. intros [= <-]. split.
    + exact Hs1.
    + intros _. apply well_formed_iff.
      unfold fed; cbn [snake food set_food set_score set_snake
                       set_grow_pending body grow_pending].
      repeat split; try assumption. lia.
  - intros [= <-]. split; [exact Hs1 |]. intros _. apply well_formed_iff.
    cbn [snake food set_snake]. repeat split; try assumption; [| lia].
    apply Hout; [exact Hfn |]. intros E.
    rewrite E, point_eqb_refl in Hfood. discriminate.
Qed.

Lemma sound_events (evs : list (nat * Event)) (g g' : SnakeGame) :
  sound g -> handle_events evs g = (Return tt, g') -> sound g'.
Proof.
  revert g. induction evs as [|[rnd e] evs IH]; intros g H.
  - intros [= <-]; exact H.
  - cbn [handle_events]. intros Hrun.
    apply bind_returns in Hrun as ([] & g1 & He & Hrest).
    apply (IH g1); [| exact Hrest].
    destruct e; cbn [handle_event] in He.
    + discriminate.
    + exact (sound_keydown rnd key g g1 H He).
    + injection He as <-; exact H.
Qed.

Lemma sound_run_for (fs : list Frame) (g g' : SnakeGame) :
  sound g -> run_for fs g = (Return tt, g') -> sound g'.
Proof.
  revert g. induction fs as [|f fs IH]; intros g H.
  - intros [= <-]; exact H.
  - cbn [run_for]. intros Hrun.
    apply bind_returns in Hrun as ([] & g2 & Hit & Hrest).
    apply (IH g2); [| exact Hrest].
    apply bind_returns in Hit as ([] & g1 & Hev & Htick).
    exact (sound_tick _ g1 g2 (sound_events _ g g1 H Hev) Htick).
Qed.

(** X11.  As long as the loop goes on (no exception has left it), a game
    started by [reset] that is not over is well formed: the body is not
    empty, its cells are distinct, inside the grid and each next to the one
    before, the food is on a cell of the grid outside the body, and the
    pending growth is not negative.  The pending direction is never the
    opposite of the committed one. *)
Theorem run_well_formed (rnd : nat) (fs : list Frame) (g0 : SnakeGame) :
  fst (main rnd fs g0) = Return tt ->
  let g := snd (main rnd fs g0) in
  (game_over g = false -> well_formed g = true)
  /\ is_opposite (pending_direction (snake g)) (direction (snake g)) = false.
Proof.
  cbv zeta. unfold main, bind.
  destruct (reset_fresh rnd g0) as (p & -> & Hg & Hn).
  assert (H : sound (mkGame Snake_init (mkFood p) 0 false false)).
  { split; [exact steady_init |]. intros _. apply well_formed_iff.
    cbn [snake food position].
    repeat split; try assumption; try reflexivity; try discriminate. }
  destruct (run_for fs _) as [[[]|e] g'] eqn:Hrun; [| discriminate].
  intros _. destruct (sound_run_for fs _ g' H Hrun) as [(_ & _ & Hno) Hw].
  split; assumption.
Qed.

Lemma run_well_formed_witness :
  let fs := [mkFrame [(0%nat, KEYDOWN K_UP)] 0; mkFrame [] 0;
             mkFrame [(0%nat, KEYDOWN K_LEFT); (0%nat, KEYDOWN K_SPACE)] 0] in
  body (snake (snd (main 100 fs eating_game)))
  = [mkPoint 15 9; mkPoint 15 10; mkPoint 15 11]
  /\ well_formed (snd (main 100 fs eating_game)) = true.
Proof.
  intros fs. split; [vm_compute; reflexivity |].
  apply (run_well_formed 100 fs eating_game); vm_compute; reflexivity.
Defined.

(** *** The exceptions that leave the loop *)

Lemma keydown_body (rnd : nat) (k : Key) (g : SnakeGame) :
  body (snake g) <> [] -> body (snake (snd (handle_keydown rnd k g))) <> [].
Proof.
  intros H.
  destruct (DIRECTION_VECTORS k) as [d|] eqn:Hk.
  - rewrite (direction_key rnd k d g Hk). exact H.
  - unfold handle_keydown. rewrite Hk. destruct k; try discriminate Hk.
    + unfold bind, gets, modify. destruct (negb (game_over g)); exact H.
    + destruct (reset_fresh rnd g) as (p & -> & _). discriminate.
    + exact H.
    + exact H.
Qed.

Lemma keydown_raises (rnd : nat) (k : Key) (g g' : SnakeGame) (e : exn) :
  handle_keydown rnd k g = (Raise e, g') -> e = SystemExit.
Proof.
  destruct (DIRECTION_VECTORS k) as [d|] eqn:Hk.
  - rewrite (direction_key rnd k d g Hk). discriminate.
  - unfold handle_keydown. rewrite Hk. destruct k; try discriminate Hk.
    + unfold bind, gets, modify. destruct (negb (game_over g)); discriminate.
    + destruct (reset_fresh rnd g) as (p & -> & _). discriminate.
    + intros [= <- _]. reflexivity.
    + discriminate.
Qed.

Lemma events_body (evs : list (nat * Event)) (g : SnakeGame) :
  body (snake g) <> [] -> body (snake (snd (handle_events evs g))) <> [].
Proof.
  revert g. induction evs as [|[rnd e] evs IH]; intros g H; [exact H |].
  cbn [handle_events].
  apply (bind_keeps (fun g => body (snake g) <> [])); [| intros _; exact IH | exact H].
  intros g0 H0. destruct e; [exact H0 | apply keydown_body, H0 | exact H0].
Qed.

Lemma events_raises (evs : list (nat * Event)) (g g' : SnakeGame) (e : exn) :
  handle_events evs g = (Raise e, g') -> e = SystemExit.
Proof.
  revert g. induction evs as [|[rnd ev] evs IH]; intros g; [discriminate |].
  cbn [handle_events]. intros H.
  apply bind_raises in H as [H | ([] & g1 & _ & H)]; [| exact (IH g1 H)].
  destruct ev; cbn [handle_event] in H.
  - injection H as <- _. reflexivity.
  - exact (keydown_raises rnd key g g' e H).
  - discriminate.
Qed.

Lemma tick_body (rnd : nat) (g : SnakeGame) :
  body (snake g) <> [] -> body (snake (snd (advance_tick rnd g))) <> [].
Proof.
  intros Hb. unfold advance_tick, bind, gets.
  destruct (negb (game_over g) && negb (paused g)); [| exact Hb].
  destruct (body (snake g)) as [|h t] eqn:Hbody; [congruence |].
  rewrite (update_cons rnd g h t Hbody). cbv zeta.
  assert (H1 : body (after_move (snake g)) <> [])
    by (rewrite (after_move_body _ h t Hbody); discriminate).
  destruct (negb (in_grid _)); [exact H1 |].
  destruct (point_in _ (tl _)); [exact H1 |].
  destruct (point_eqb _ _); [| exact H1].
  unfold on_food, on. destruct (relocate _ _ _) as [o f']. exact H1.
Qed.

Lemma tick_raises (rnd : nat) (g g' : SnakeGame) (e : exn) :
  body (snake g) <> [] ->
  advance_tick rnd g = (Raise e, g') ->
  e = IndexError /\ covers_grid (body (snake g')) /\ game_over g' = false.
Proof.
  intros Hb. unfold advance_tick, bind, gets.
  destruct (game_over g) eqn:Ho; [discriminate |].
  destruct (paused g) eqn:Hp; [discriminate |]. cbn [negb andb].
  destruct (body (snake g)) as [|h t] eqn:Hbody; [congruence |].
  rewrite (update_cons rnd g h t Hbody). cbv zeta.
  destruct (negb (in_grid _)); [discriminate |].
  destruct (point_in _ (tl _)); [discriminate |].
  destruct (point_eqb _ _); [| discriminate].
  unfold on_food, on.
  destruct (relocate rnd _ (food (fed g))) as [[[]|e1] f'] eqn:Hrel;
    [discriminate |].
  apply relocate_raises in Hrel as (-> & -> & Hcov).
  intros [= <- <-]. repeat split; [exact Hcov | exact Ho].
Qed.

Lemma run_for_index_error (fs : list Frame) (g : SnakeGame) :
  body (snake g) <> [] ->
  fst (run_for fs g) = Raise IndexError ->
  covers_grid (body (snake (snd (run_for fs g))))
  /\ game_over (snd (run_for fs g)) = false.
Proof.
  revert g. induction fs as [|f fs IH]; intros g Hb; [discriminate |].
  assert (Hr : run_for (f :: fs) g
               = match run_iteration f g with
                 | (Return _, g2) => run_for fs g2
                 | (Raise e, g2) => (Raise e, g2)
                 end) by reflexivity.
  rewrite Hr. clear Hr.
  destruct (run_iteration f g) as [[[]|e] g2] eqn:Hit.
  - apply IH.
    apply bind_returns in Hit as ([] & g1 & Hev & Htick).
    replace g2 with (snd (advance_tick (tick_draw f) g1)) by (rewrite Htick; reflexivity).
    apply tick_body.
    replace g1 with (snd (handle_events (events f) g)) by (rewrite Hev; reflexivity).
    apply events_body, Hb.
  - cbn [fst snd]. intros [= ->].
    apply bind_raises in Hit as [Hev | ([] & g1 & Hev & Htick)].
    + apply events_raises in Hev. discriminate.
    + apply tick_raises in Htick as (_ & Hcov & Ho); [split; assumption |].
      replace g1 with (snd (handle_events (events f) g)) by (rewrite Hev; reflexivity).
      apply events_body, Hb.
Qed.

(** X12.  The one [IndexError] that can leave the loop is that of
    [random.choice] on a full grid: started on a game whose snake has a
    body, if the loop ends with [IndexError] then the snake, on eating, had
    come to cover every cell of the grid, and [game_over] is not set. *)
Theorem index_error_full_grid (fs : list Frame) (g : SnakeGame) :
  body (snake g) <> [] ->
  fst (run_for fs g) = Raise IndexError ->
  covers_grid (body (snake (snd (run_for fs g))))
  /\ game_over (snd (run_for fs g)) = false.
Proof. exact (run_for_index_error fs g). Qed.

Lemma index_error_full_grid_witness :
  length (body (snake (snd (run_for [mkFrame [(0%nat, KEYDOWN K_DOWN)] 0] full_game))))
  = 660%nat
  /\ game_over (snd (run_for [mkFrame [(0%nat, KEYDOWN K_DOWN)] 0] full_game)) = false.
Proof.
  split; [vm_compute; reflexivity |].
  apply (index_error_full_grid [mkFrame [(0%nat, KEYDOWN K_DOWN)] 0] full_game).
  - vm_compute. discriminate.
  - vm_compute. reflexivity.
Defined.

(** X13.  Started by [reset], the loop never ends with [IndexError] from an
    empty body: it returns, or ends with [SystemExit], or ends with
    [IndexError] on a full grid. *)
Theorem run_outcomes (rnd : nat) (fs : list Frame) (g0 : SnakeGame) :
  fst (main rnd fs g0) = Return tt
  \/ fst (main rnd fs g0) = Raise SystemExit
  \/ (fst (main rnd fs g0) = Raise IndexError
      /\ covers_grid (body (snake (snd (main rnd fs g0))))).
Proof.
  unfold main, bind. destruct (reset_fresh rnd g0) as (p & -> & _).
  set (g := mkGame Snake_init (mkFood p) 0 false false).
  assert (Hb : body (snake g) <> []) by discriminate.
  pose proof (run_for_index_error fs g Hb) as H.
  destruct (run_for fs g) as [[[]|[]] g']; cbn [fst snd] in *; auto.
  right; right. split; [reflexivity | apply H; reflexivity].
Qed.

(** *** A game that is over *)

Lemma same_but_pending_refl (g : SnakeGame) : same_but_pending g g.
Proof. repeat split. Qed.

Lemma same_but_pending_trans (g1 g2 g3 : SnakeGame) :
  same_but_pending g1 g2 -> same_but_pending g2 g3 -> same_but_pending g1 g3.
Proof.
  unfold same_but_pending.
  intros (A1 & A2 & A3 & A4 & A5 & A6 & A7) (B1 & B2 & B3 & B4 & B5 & B6 & B7).
  repeat split; congruence.
Qed.

Lemma over_event (rnd : nat) (e : Event) (g : SnakeGame) :
  game_over g = true ->
  e <> KEYDOWN K_r ->
  same_but_pending g (snd (handle_event rnd e g)).
Proof.
  intros Ho Hne. destruct e as [|k|]; cbn [handle_event];
    [apply same_but_pending_refl | | apply same_but_pending_refl].
  destruct (DIRECTION_VECTORS k) as [d|] eqn:Hk.
  - rewrite (direction_key rnd k d g Hk). repeat split.
  - unfold handle_keydown. rewrite Hk.
    destruct k; try discriminate Hk; try apply same_but_pending_refl.
    + unfold bind, gets. rewrite Ho. apply same_but_pending_refl.
    + congruence.
Qed.

Lemma over_events (evs : list (nat * Event)) (g : SnakeGame) :
  game_over g = true ->
  Forall (fun ev => snd ev <> KEYDOWN K_r) evs ->
  same_but_pending g (snd (handle_events evs g)).
Proof.
  intros Ho Hevs. revert g Ho.
  induction Hevs as [|[rnd e] evs He _ IH]; intros g Ho;
    [apply same_but_pending_refl |].
  cbn [handle_events]. unfold bind.
  pose proof (over_event rnd e g Ho He) as H1.
  destruct (handle_event rnd e g) as [[[]|ex] g1]; cbn [snd] in *; [| exact H1].
  apply (same_but_pending_trans g g1); [exact H1 |].
  apply IH. destruct H1 as (_ & _ & _ & _ & _ & H6 & _). congruence.
Qed.

Lemma over_run_for (fs : list Frame) (g : SnakeGame) :
  game_over g = true ->
  no_restart fs ->
  same_but_pending g (snd (run_for fs g)).
Proof.
  intros Ho Hfs. revert g Ho.
  induction Hfs as [|f fs Hf _ IH]; intros g Ho; [apply same_but_pending_refl |].
  cbn [run_for]. unfold bind at 1. unfold run_iteration, bind.
  pose proof (over_events (events f) g Ho Hf) as H1.
  destruct (handle_events (events f) g) as [[[]|ex] g1]; cbn [snd] in *;
    [| exact H1].
  assert (Ho1 : game_over g1 = true)
    by (destruct H1 as (_ & _ & _ & _ & _ & H6 & _); congruence).
  unfold advance_tick, bind, gets. rewrite Ho1. cbn [negb andb ret].
  apply (same_but_pending_trans g g1); [exact H1 | apply IH, Ho1].
Qed.

(** X14.  A game that is over stays as it is until the key [K_r]: through
    any frames without that key (ticks, direction keys, space, other
    events, even an exit) the game is still over, and the body, the
    committed direction, the pending growth, the food, the score and
    [paused] are what they were; only the pending direction may differ. *)
Theorem over_until_restart (fs : list Frame) (g : SnakeGame) :
  game_over g = true ->
  no_restart fs ->
  let g' := snd (run_for fs g) in
  game_over g' = true
  /\ body (snake g') = body (snake g)
  /\ direction (snake g') = direction (snake g)
  /\ grow_pending (snake g') = grow_pending (snake g)
  /\ food g' = food g
  /\ score g' = score g
  /\ paused g' = paused g.
Proof.
  intros Ho Hfs. cbv zeta.
  destruct (over_run_for fs g Ho Hfs) as (A1 & A2 & A3 & A4 & A5 & A6 & A7).
  repeat split; congruence.
Qed.

Lemma over_until_restart_witness :
  let g := set_game_over true eating_game in
  let fs := [mkFrame [(0%nat, KEYDOWN K_SPACE); (0%nat, KEYDOWN K_UP)] 0;
             mkFrame [(0%nat, OtherEvent)] 1] in
  game_over (snd (run_for fs g)) = true /\ paused (snd (run_for fs g)) = false.
Proof.
  intros g fs.
  destruct (over_until_restart fs g) as (H1 & _ & _ & _ & _ & _ & H7).
  - reflexivity.
  - repeat constructor; cbn; discriminate.
  - split; [exact H1 | exact H7].
Defined.

(** ** Pixels *)

(** X15.  The square of side [CELL_SIZE] that [to_pixels] gives a cell lies
    inside the window exactly when the cell is inside the grid. *)
Theorem to_pixels_in_window (p : Point) :
  in_grid p = true <->
  0 <= fst (to_pixels p) /\ fst (to_pixels p) + CELL_SIZE <= WINDOW_WIDTH
  /\ 0 <= snd (to_pixels p) /\ snd (to_pixels p) + CELL_SIZE <= WINDOW_HEIGHT.
Proof.
  unfold in_grid, to_pixels, WINDOW_WIDTH, WINDOW_HEIGHT, CELL_SIZE,
    GRID_WIDTH, GRID_HEIGHT. cbn [fst snd].
  rewrite !andb_true_iff, !Z.leb_le, !Z.ltb_lt. lia.
Qed.

(** X16.  Different cells get squares that do not overlap: their corners
    are at least [CELL_SIZE] apart along one axis. *)
Theorem to_pixels_apart (p q : Point) :
  p <> q ->
  CELL_SIZE <= Z.abs (fst (to_pixels p) - fst (to_pixels q))
  \/ CELL_SIZE <= Z.abs (snd (to_pixels p) - snd (to_pixels q)).
Proof.
  intros Hne. unfold to_pixels, CELL_SIZE. cbn [fst snd].
  destruct p as [px py], q as [qx qy]. cbn [x y].
  destruct (Z.eq_dec px qx) as [-> | Hx]; [| left; lia].
  destruct (Z.eq_dec py qy) as [-> | Hy]; [congruence | right; lia].
Qed.

Lemma to_pixels_apart_witness :
  CELL_SIZE <= Z.abs (fst (to_pixels (mkPoint 3 4)) - fst (to_pixels (mkPoint 4 4)))
  \/ CELL_SIZE <= Z.abs (snd (to_pixels (mkPoint 3 4)) - snd (to_pixels (mkPoint 4 4))).
Proof. apply to_pixels_apart. discriminate. Defined.

(** ** More on the choice of a cell for the food *)

(** X17.  Every free cell can be chosen: for a cell of the grid that is not
    in [occupied] there is a draw at which [relocate] returns with the food
    on that cell. *)
Theorem relocate_any_free (occupied : list Point) (f : Food) (p : Point) :
  in_grid p = true ->
  point_in p occupied = false ->
  exists rnd, relocate rnd occupied f = (Return tt, mkFood p).
Proof.
  intros Hg Hn.
  assert (Hin : In p (available occupied)) by (apply In_available; auto).
  destruct (In_nth _ _ p Hin) as (i & Hi & Hnth).
  exists i. unfold relocate, bind, _random_position.
  rewrite (random_choice_nth i (available occupied) p f Hi), Hnth. reflexivity.
Qed.

Lemma relocate_any_free_witness :
  exists rnd, relocate rnd (body Snake_init) (mkFood (mkPoint 0 0))
              = (Return tt, mkFood (mkPoint 29 21)).
Proof. apply relocate_any_free; reflexivity. Defined.

Lemma grid_cells_NoDup : NoDup grid_cells.
Proof. apply distinct_NoDup. vm_compute. reflexivity. Qed.

Lemma available_length (occupied : list Point) :
  distinct occupied = true ->
  forallb in_grid occupied = true ->
  (length (available occupied) + length occupied = length grid_cells)%nat.
Proof.
  intros Hd Hg.
  rewrite <- (filter_length (fun p => point_in p occupied) grid_cells).
  rewrite Nat.add_comm. f_equal. apply Permutation_length, NoDup_Permutation.
  - apply distinct_NoDup, Hd.
  - apply NoDup_filter, grid_cells_NoDup.
  - intros p. rewrite filter_In, In_grid_cells, point_in_In. split.
    + intros Hin. split; [| exact Hin].
      rewrite forallb_forall in Hg. apply Hg, Hin.
    + tauto.
Qed.

(** X18.  For distinct cells of the grid (a snake's body), [relocate] raises
    [IndexError] exactly when there are [GRID_WIDTH * GRID_HEIGHT] of them;
    with fewer it returns. *)
Theorem relocate_fails_iff (rnd : nat) (occupied : list Point) (f : Food) :
  distinct occupied = true ->
  forallb in_grid occupied = true ->
  (fst (relocate rnd occupied f) = Raise IndexError
   <-> Z.of_nat (length occupied) = GRID_WIDTH * GRID_HEIGHT)
  /\ (fst (relocate rnd occupied f) = Return tt
      <-> Z.of_nat (length occupied) < GRID_WIDTH * GRID_HEIGHT).
Proof.
  intros Hd Hg. pose proof (available_length occupied Hd Hg) as Hlen.
  replace (length grid_cells) with 660%nat in Hlen by (vm_compute; reflexivity).
  change (GRID_WIDTH * GRID_HEIGHT) with 660.
  unfold relocate, bind, _random_position.
  destruct (available occupied) as [|a l] eqn:E.
  - cbn [length] in Hlen. cbn. split; split; intros H; try reflexivity;
      try discriminate; lia.
  - destruct (random_choice_In (St := Food) rnd (a :: l) f) as (p & -> & _);
      [discriminate |].
    cbn [length] in Hlen. cbn. split; split; intros H; try reflexivity;
      try discriminate; lia.
Qed.

Lemma relocate_fails_iff_witness :
  fst (relocate 0 serpentine (mkFood (mkPoint 0 0))) = Raise IndexError
  /\ fst (relocate 0 (tl serpentine) (mkFood (mkPoint 0 0))) = Return tt.
Proof.
  split.
  - apply (relocate_fails_iff 0 serpentine); vm_compute; reflexivity.
  - apply (relocate_fails_iff 0 (tl serpentine)); vm_compute; reflexivity.
Defined.

(** ** A snake without a body *)

(** X19.  On a snake with an empty body, [head] and [hits_self] raise
    [IndexError] and leave the snake as it is; [move] raises [IndexError]
    too, but only after it has committed the pending direction, and the
    tick of a game in play hands that exception on, with [game_over] not
    set. *)
Theorem empty_body_raises (rnd : nat) (g : SnakeGame) :
  body (snake g) = [] ->
  game_over g = false ->
  paused g = false ->
  head (snake g) = (Raise IndexError, snake g)
  /\ hits_self (snake g) = (Raise IndexError, snake g)
  /\ move (snake g)
     = (Raise IndexError,
        {| body := [];
           direction := pending_direction (snake g);
           pending_direction := pending_direction (snake g);
           grow_pending := grow_pending (snake g) |})
  /\ advance_tick rnd g
     = (Raise IndexError, set_snake (snd (move (snake g))) g).
Proof.
  intros Hb Ho Hp.
  assert (Hh : head (snake g) = (Raise IndexError, snake g))
    by (unfold head, bind, gets, raise; rewrite Hb; reflexivity).
  assert (Hm : move (snake g)
               = (Raise IndexError, set_committed (pending_direction (snake g)) (snake g)))
    by (apply move_nil, Hb).
  repeat split.
  - exact Hh.
  - unfold hits_self, bind. rewrite Hh. reflexivity.
  - rewrite Hm. unfold set_committed. rewrite Hb. reflexivity.
  - rewrite (advance_tick_active rnd g Ho Hp).
    unfold update, bind, on_snake, on at 1. rewrite Hm. reflexivity.
Qed.

Lemma empty_body_raises_witness :
  let g := mkGame (mkSnake [] (mkPoint (-1) 0) (mkPoint 0 1) 0)
                  (mkFood (mkPoint 2 2)) 0 false false in
  fst (advance_tick 0 g) = Raise IndexError
  /\ direction (snake (snd (advance_tick 0 g))) = mkPoint 0 1.
Proof.
  intros g.
  destruct (empty_body_raises 0 g eq_refl eq_refl eq_refl) as (_ & _ & _ & Ht).
  rewrite Ht. split; reflexivity.
Defined.
